(** * WebGL cursor particles: the simulation and transform core

    A shallow embedding of [src/webgl-particles.js]: the pointer and key
    handlers, the clamped interpolation of the sampling radius, the
    rejection sampler [generatePointsInSphere], the 3x3 matrix helpers of
    [m3] and the per-frame loop of [drawScene], followed by the properties
    of the specification that were checked against them.

    Numbers.  A JavaScript number is modelled at two levels.

    - [number]: [NaN], the two infinities, or a finite value carried as a
      canonical rational.  The special values follow ECMAScript (anything
      with [NaN] is [NaN], [Infinity - Infinity] and [0 * Infinity] are
      [NaN], [x / 0] is an infinity, every comparison with [NaN] is
      false).  Finite arithmetic is exact: rounding and overflow are not
      modelled, and [-0] is identified with [0].  This level carries the
      handlers, the interpolation and the frame loop.

    - [binary64]: the sampler and the matrix helpers again, on IEEE 754
      double-precision numbers (Rocq's primitive floats), operation by
      operation as the source has them.  This level is used where the
      outcome depends on rounding: the test of the rejection loop and the
      order in which a composite transform is evaluated.

    Environment.  [Math.random], [Math.cos] and [Math.sin] are parameters,
    and so is, at the binary64 level, the value of [a ** 2], which
    ECMAScript leaves to the engine; [performance.now()], the canvas size
    and the fields of a DOM event are inputs of the function that reads
    them.  The calls into the WebGL context are kept as the list of draw
    commands a frame uploads. *)

From Stdlib Require Import QArith Qcanon ZArith Lia Lqa Floats.
From stdpp Require Import base option list strings.

(** ** Numbers *)

Inductive number : Type :=
| NaN
| Inf (negative : bool)
| Fin (q : Qc).

Declare Scope num_scope.
Delimit Scope num_scope with num.
Bind Scope num_scope with number.

(** A numeric literal of the source: [lit 50], [lit 0.005]. *)
Definition lit (q : Q) : number := Fin (Q2Qc q).

Definition is_neg (q : Qc) : bool :=
  match (q ?= 0)%Qc with Lt => true | _ => false end.

Definition is_zero (q : Qc) : bool :=
  match (q ?= 0)%Qc with Eq => true | _ => false end.

Definition is_finite (n : number) : bool :=
  match n with Fin _ => true | _ => false end.

(** [a + b] *)
Definition add (a b : number) : number :=
  match a, b with
  | NaN, _ | _, NaN => NaN
  | Inf s, Inf t => if Bool.eqb s t then Inf s else NaN
  | Inf s, Fin _ => Inf s
  | Fin _, Inf t => Inf t
  | Fin p, Fin q => Fin (p + q)
  end.

(** [-a] *)
Definition neg (a : number) : number :=
  match a with
  | NaN => NaN
  | Inf s => Inf (negb s)
  | Fin p => Fin (- p)
  end.

(** [a - b] *)
Definition sub (a b : number) : number := add a (neg b).

(** [a * b] *)
Definition mul (a b : number) : number :=
  match a, b with
  | NaN, _ | _, NaN => NaN
  | Inf s, Inf t => Inf (xorb s t)
  | Inf s, Fin q => if is_zero q then NaN else Inf (xorb s (is_neg q))
  | Fin p, Inf t => if is_zero p then NaN else Inf (xorb (is_neg p) t)
  | Fin p, Fin q => Fin (p * q)
  end.

(** [a / b] *)
Definition div (a b : number) : number :=
  match a, b with
  | NaN, _ | _, NaN => NaN
  | Inf _, Inf _ => NaN
  | Inf s, Fin q => Inf (xorb s (is_neg q))
  | Fin _, Inf _ => Fin 0
  | Fin p, Fin q =>
      if is_zero q then (if is_zero p then NaN else Inf (is_neg p))
      else Fin (p / q)
  end.

(** [a ** 2] *)
Definition pow2 (a : number) : number := mul a a.

(** [a < b] *)
Definition ltb (a b : number) : bool :=
  match a, b with
  | NaN, _ | _, NaN => false
  | Inf s, Inf t => s && negb t
  | Inf s, Fin _ => s
  | Fin _, Inf t => negb t
  | Fin p, Fin q => match (p ?= q)%Qc with Lt => true | _ => false end
  end.

(** [a > b] *)
Definition gtb (a b : number) : bool := ltb b a.

(** [a <= b] *)
Definition leb (a b : number) : bool :=
  match a, b with
  | NaN, _ | _, NaN => false
  | Inf s, Inf t => s || negb t
  | Inf s, Fin _ => s
  | Fin _, Inf t => negb t
  | Fin p, Fin q => match (p ?= q)%Qc with Gt => false | _ => true end
  end.

Infix "+" := add : num_scope.
Infix "-" := sub : num_scope.
Infix "*" := mul : num_scope.
Infix "/" := div : num_scope.
Notation "- a" := (neg a) : num_scope.

(** [Math.max(a, b)] and [Math.min(a, b)]: [NaN] as soon as one argument
    is [NaN]. *)
Definition Math_max (a b : number) : number :=
  match a, b with
  | NaN, _ | _, NaN => NaN
  | _, _ => if ltb a b then b else a
  end.

Definition Math_min (a b : number) : number :=
  match a, b with
  | NaN, _ | _, NaN => NaN
  | _, _ => if ltb b a then b else a
  end.

(** A variable declared without initialiser holds [undefined]; used as an
    operand of arithmetic it converts to [NaN]. *)
Definition ToNumber (v : option number) : number :=
  match v with
  | Some n => n
  | None => NaN
  end.

(** ** Interpolation *)

Definition clamp (x min max : number) : number :=
  Math_min (Math_max x min) max.

Definition lerp (a b alpha : number) : number :=
  let alpha := clamp alpha (lit 0) (lit 1) in
  (a + alpha * (b - a))%num.

(** ** Matrices

    A matrix is the nine-element array of the source, entry [mIJ] being
    the element at index [I * 3 + J]. *)

Record mat3 : Type := Mat3 {
  m00 : number; m01 : number; m02 : number;
  m10 : number; m11 : number; m12 : number;
  m20 : number; m21 : number; m22 : number
}.

Definition vec3 : Type := (number * number * number)%type.

Module m3.

Definition projection (width height : number) : mat3 :=
  Mat3 (lit 2 / width) (lit 0) (lit 0)
       (lit 0) (lit (-2) / height) (lit 0)
       (lit (-1)) (lit 1) (lit 1).

Definition translation (tx ty : number) : mat3 :=
  Mat3 (lit 1) (lit 0) (lit 0)
       (lit 0) (lit 1) (lit 0)
       tx ty (lit 1).

Section Trig.
Variables Math_cos Math_sin : number -> number.

Definition rotation (angleInRadians : number) : mat3 :=
  let c := Math_cos angleInRadians in
  let s := Math_sin angleInRadians in
  Mat3 c (- s) (lit 0)
       s c (lit 0)
       (lit 0) (lit 0) (lit 1).

End Trig.

Definition scaling (sx sy : number) : mat3 :=
  Mat3 sx (lit 0) (lit 0)
       (lit 0) sy (lit 0)
       (lit 0) (lit 0) (lit 1).

Definition multiply (a b : mat3) : mat3 :=
  let a00 := m00 a in let a01 := m01 a in let a02 := m02 a in
  let a10 := m10 a in let a11 := m11 a in let a12 := m12 a in
  let a20 := m20 a in let a21 := m21 a in let a22 := m22 a in
  let b00 := m00 b in let b01 := m01 b in let b02 := m02 b in
  let b10 := m10 b in let b11 := m11 b in let b12 := m12 b in
  let b20 := m20 b in let b21 := m21 b in let b22 := m22 b in
  Mat3 (b00 * a00 + b01 * a10 + b02 * a20)
       (b00 * a01 + b01 * a11 + b02 * a21)
       (b00 * a02 + b01 * a12 + b02 * a22)
       (b10 * a00 + b11 * a10 + b12 * a20)
       (b10 * a01 + b11 * a11 + b12 * a21)
       (b10 * a02 + b11 * a12 + b12 * a22)
       (b20 * a00 + b21 * a10 + b22 * a20)
       (b20 * a01 + b21 * a11 + b22 * a21)
       (b20 * a02 + b21 * a12 + b22 * a22).

End m3.

(** The vertex shader's [u_matrix * vec3(a_position, 1)].  The array is
    uploaded by [uniformMatrix3fv] without transposition, so GLSL reads
    elements [3c], [3c+1], [3c+2] as column [c]; the product with a column
    vector is the row vector [(x, y, z)] times the array read row by row. *)
Definition u_matrix_times (m : mat3) (v : vec3) : vec3 :=
  let '(x, y, z) := v in
  (m00 m * x + m10 m * y + m20 m * z,
   m01 m * x + m11 m * y + m21 m * z,
   m02 m * x + m12 m * y + m22 m * z)%num.

(** ** Scene data *)

(** A point [{x, y, z}] of the sampler. *)
Record point : Type := Point { p_x : number; p_y : number; p_z : number }.

(** A vertex [{x, y}] of a triangle. *)
Record vertex : Type := Vertex { v_x : number; v_y : number }.

(** An entry [[posX, posY, rotation, scaleX, scaleY]] of [squaresData]. *)
Record square : Type := Square {
  sq_x : number;
  sq_y : number;
  sq_rotationInRadians : number;
  sq_scaleX : number;
  sq_scaleY : number
}.

(** What one iteration of the drawing loop hands to the WebGL context:
    the buffer filled by [setTriangles], the matrix and colour uniforms,
    followed by [drawArrays(TRIANGLES, 0, 6)]. *)
Record command : Type := Command {
  cmd_vertices : list number;
  cmd_matrix : mat3;
  cmd_color : list number
}.

(** The variables of [main] that the handlers and [drawScene] share. *)
Record state : Type := State {
  mouseX : number;
  mouseY : number;
  radius : number;
  wantedRadius : option number;
  lerpStart : option number;
  colorMode : bool;
  squaresData : list square
}.

(** The DOM events [main] listens to, with the fields the handlers read;
    [now] is the value [performance.now()] returns inside the handler. *)
Inductive event : Type :=
| mousemove (clientX clientY rect_left rect_top : number)
| mousedown (button : Z) (now : number)
| mouseup (button : Z) (now : number)
| keydown (key : string).

Definition numberOfSquares : nat := 100.
Definition maxOffset : number := lit 0.5.
Definition squareWidth : number := lit 5.
Definition squareHeight : number := lit 5.

Definition dispatch (ev : event) (s : state) : state :=
  match ev with
  | mousemove clientX clientY rect_left rect_top =>
      State (clientX - rect_left) (clientY - rect_top) (radius s)
            (wantedRadius s) (lerpStart s) (colorMode s) (squaresData s)
  | mousedown button now =>
      if (button =? 0)%Z
      then State (mouseX s) (mouseY s) (lit 50) (Some (lit 200)) (Some now)
                 (colorMode s) (squaresData s)
      else s
  | mouseup button now =>
      if (button =? 0)%Z
      then State (mouseX s) (mouseY s) (lit 200) (Some (lit 50)) (Some now)
                 (colorMode s) (squaresData s)
      else s
  | keydown key =>
      if String.eqb key "c"
      then State (mouseX s) (mouseY s) (radius s) (wantedRadius s)
                 (lerpStart s) (negb (colorMode s)) (squaresData s)
      else s
  end.

(** [setTriangles]: the coordinates pushed for each triangle, in order. *)
Definition setTriangles (triangles : list (vertex * vertex * vertex))
  : list number :=
  flat_map (fun '(t0, t1, t2) =>
              [v_x t0; v_y t0; v_x t1; v_y t1; v_x t2; v_y t2]) triangles.

(** The radius [drawScene] computes at time [now] (line 147). *)
Definition newRadius (s : state) (now : number) : number :=
  lerp (radius s) (ToNumber (wantedRadius s))
       ((now - ToNumber (lerpStart s)) * lit 0.005).

Section Scene.

(** [Math_random n] is the value of the [n]-th call of [Math.random()];
    the functions below thread the number of calls made so far. *)
Variable Math_random : nat -> Qc.
Variables Math_cos Math_sin : number -> number.

(** The body of the [do ... while] of [generatePointsInSphere]: one
    candidate, built from three successive draws. *)
Definition candidate (center : point) (radius : number) (calls : nat)
  : point :=
  let x := ((Fin (Math_random calls) * lit 2 - lit 1) * radius)%num in
  let y := ((Fin (Math_random (calls + 1)) * lit 2 - lit 1) * radius)%num in
  let z := ((Fin (Math_random (calls + 2)) * lit 2 - lit 1) * radius)%num in
  Point (p_x center + x) (p_y center + y) (p_z center + z).

(** The left-hand side of the loop condition. *)
Definition distance2 (p center : point) : number :=
  (pow2 (p_x p - p_x center) + pow2 (p_y p - p_y center)
   + pow2 (p_z p - p_z center))%num.

(** The loop condition: the candidate is drawn again while it holds. *)
Definition rejected (p center : point) (radius : number) : bool :=
  gtb (distance2 p center) (pow2 radius).

(** The [do ... while] loop; [fuel] bounds the candidates tried for one
    point, [None] standing for a loop that is still running. *)
Fixpoint sample (fuel : nat) (center : point) (radius : number)
    (calls : nat) : option (point * nat) :=
  match fuel with
  | O => None
  | S fuel' =>
      let p := candidate center radius calls in
      if rejected p center radius
      then sample fuel' center radius (calls + 3)
      else Some (p, calls + 3)
  end.

(** The [for] loop, with [n] iterations left and [points] pushed so far. *)
Fixpoint generate_loop (fuel : nat) (center : point) (radius : number)
    (n : nat) (points : list point) (calls : nat)
  : option (list point * nat) :=
  match n with
  | O => Some (points, calls)
  | S n' =>
      '(p, calls') ← sample fuel center radius calls;
      generate_loop fuel center radius n' (points ++ [p]) calls'
  end.

Definition generatePointsInSphere (fuel : nat) (center : point)
    (radius : number) (numPoints : nat) (calls : nat)
  : option (list point * nat) :=
  generate_loop fuel center radius numPoints [] calls.

(** The initialisation loop of [main]; [width] and [height] are
    [gl.canvas.width] and [gl.canvas.height]. *)
Fixpoint init_loop (width height : number) (n : nat)
    (squaresData : list square) (calls : nat) : list square * nat :=
  match n with
  | O => (squaresData, calls)
  | S n' =>
      let posX := (width * Fin (Math_random calls) * maxOffset)%num in
      let posY := (height * Fin (Math_random (calls + 1)) * maxOffset)%num in
      init_loop width height n'
        (squaresData ++ [Square posX posY (lit 0) (lit 1) (lit 1)])
        (calls + 2)
  end.

(** The state [main] has built when it first calls [drawScene]. *)
Definition main (width height : number) (calls : nat) : state * nat :=
  let '(squaresData, calls') :=
    init_loop width height numberOfSquares [] calls in
  (State (lit 0) (lit 0) (lit 50) None None false squaresData, calls').

(** The triangles of the square whose corner is [(x, y)]. *)
Definition square_triangles (x y : number)
  : list (vertex * vertex * vertex) :=
  [ (Vertex x y, Vertex (x + squareWidth) y, Vertex x (y + squareHeight));
    (Vertex (x + squareWidth) y, Vertex (x + squareWidth) (y + squareHeight),
     Vertex x (y + squareHeight)) ].

(** The matrix of one square: projection, translation, rotation and
    scale, multiplied in that order. *)
Definition square_matrix (clientWidth clientHeight : number)
    (translation : number * number)
    (rotationInRadians scaleX scaleY : number) : mat3 :=
  let projectionMatrix := m3.projection clientWidth clientHeight in
  let translationMatrix :=
    m3.translation (fst translation) (snd translation) in
  let rotationMatrix := m3.rotation Math_cos Math_sin rotationInRadians in
  let scaleMatrix := m3.scaling scaleX scaleY in
  let matrix := m3.multiply projectionMatrix translationMatrix in
  let matrix := m3.multiply matrix rotationMatrix in
  let matrix := m3.multiply matrix scaleMatrix in
  matrix.

(** The colour of one square, and the number of [Math.random] calls
    after choosing it. *)
Definition square_color (colorMode : bool) (calls : nat)
  : list number * nat :=
  if colorMode
  then ([Fin (Math_random calls); Fin (Math_random (calls + 1));
         Fin (Math_random (calls + 2)); lit 1], calls + 3)
  else ([lit 1; lit 1; lit 1; lit 1], calls).

(** The drawing loop of [drawScene], with [n] iterations left and loop
    counter [i].  Reading an entry that does not exist throws; that is
    [None]. *)
Fixpoint squares_loop (clientWidth clientHeight : number) (colorMode : bool)
    (spherePoints : list point) (n i : nat)
    (squaresData : list square) (calls : nat) (drawn : list command)
  : option (list command * list square * nat) :=
  match n with
  | O => Some (drawn, squaresData, calls)
  | S n' =>
      sq ← squaresData !! i;
      let x := sq_x sq in
      let y := sq_y sq in
      let rotationInRadians := sq_rotationInRadians sq in
      let scaleX := sq_scaleX sq in
      let scaleY := sq_scaleY sq in
      let translation := (x, y) in
      p ← spherePoints !! i;
      let squaresData :=
        <[i := Square (p_x p * lit 0.5) (p_y p * lit 0.5)
                      rotationInRadians scaleX scaleY]> squaresData in
      let triangles := square_triangles x y in
      let vertices := setTriangles triangles in
      let matrix :=
        square_matrix clientWidth clientHeight translation
                      rotationInRadians scaleX scaleY in
      let '(color, calls') := square_color colorMode calls in
      squares_loop clientWidth clientHeight colorMode spherePoints n' (S i)
        squaresData calls' (drawn ++ [Command vertices matrix color])
  end.

(** One frame.  [now] is [performance.now()], [clientWidth] and
    [clientHeight] the size of the canvas. *)
Definition drawScene (fuel : nat) (now clientWidth clientHeight : number)
    (s : state) (calls : nat) : option (list command * state * nat) :=
  let newRadius := newRadius s now in
  '(spherePoints, calls) ←
    generatePointsInSphere fuel (Point (mouseX s) (mouseY s) (lit 0))
                           newRadius numberOfSquares calls;
  '(drawn, squaresData, calls) ←
    squares_loop clientWidth clientHeight (colorMode s) spherePoints
                 numberOfSquares 0 (squaresData s) calls [];
  Some (drawn,
        State (mouseX s) (mouseY s) (radius s) (wantedRadius s)
              (lerpStart s) (colorMode s) squaresData,
        calls).

(** What the page receives over time: an event for one of the handlers,
    or an animation frame, on which [drawScene] runs. *)
Inductive input : Type :=
| Deliver (ev : event)
| Frame (now clientWidth clientHeight : number).

(** The state after a sequence of inputs. *)
Fixpoint run (fuel : nat) (inputs : list input) (s : state) (calls : nat)
  : option (state * nat) :=
  match inputs with
  | [] => Some (s, calls)
  | Deliver ev :: inputs' => run fuel inputs' (dispatch ev s) calls
  | Frame now clientWidth clientHeight :: inputs' =>
      '(_, s', calls') ← drawScene fuel now clientWidth clientHeight s calls;
      run fuel inputs' s' calls'
  end.

End Scene.

(** ** Predicates used in the statements *)

(** A matrix all of whose entries are finite. *)
Definition finite_mat3 (m : mat3) : Prop :=
  exists a b c d e f g h i : Qc,
    m = Mat3 (Fin a) (Fin b) (Fin c) (Fin d) (Fin e) (Fin f)
             (Fin g) (Fin h) (Fin i).

(** A press or a release of the left button. *)
Definition left_button (i : input) : bool :=
  match i with
  | Deliver (mousedown button _) | Deliver (mouseup button _) =>
      (button =? 0)%Z
  | _ => false
  end.

(** What the drawing loop draws for the square [sq], with some colour. *)
Definition drawn_for (Math_cos Math_sin : number -> number)
    (clientWidth clientHeight : number) (sq : square) (color : list number)
  : command :=
  Command (setTriangles (square_triangles (sq_x sq) (sq_y sq)))
          (square_matrix Math_cos Math_sin clientWidth clientHeight
             (sq_x sq, sq_y sq) (sq_rotationInRadians sq)
             (sq_scaleX sq) (sq_scaleY sq))
          color.

(** What the drawing loop stores for the square [sq] and the sampled
    point [p]. *)
Definition moved_to (sq : square) (p : point) : square :=
  Square (p_x p * lit 0.5) (p_y p * lit 0.5)
         (sq_rotationInRadians sq) (sq_scaleX sq) (sq_scaleY sq).

(** A square whose two scales are 1. *)
Definition unit_scale (sq : square) : Prop :=
  sq_scaleX sq = lit 1 /\ sq_scaleY sq = lit 1.

(** Among any [fuel] successive candidates, wherever the draws start, one
    is accepted. *)
Definition fair_draws (Math_random : nat -> Qc) (fuel : nat)
    (center : point) (radius : number) : Prop :=
  forall calls, exists j,
    (j < fuel)%nat /\
    rejected (candidate Math_random center radius (calls + 3 * j))
             center radius = false.

(** ** Concrete environments

    Closed inputs on which the embedding is run: streams of [Math.random]
    values, the values of [Math.cos] and [Math.sin] at the two angles that
    occur ([0] in [squaresData], a quarter turn in the composition test),
    and the states of a short session. *)

(** Every draw is [0.5]: each candidate is the centre of the sphere. *)
Definition draws_centre : nat -> Qc := fun _ => Q2Qc 0.5.

(** Draws in groups of six: a candidate near a corner of the cube, which
    is outside the sphere, then the centre. *)
Definition draws_corner_then_centre : nat -> Qc :=
  fun n => if (n mod 6 <? 3)%nat then Q2Qc 0.95 else Q2Qc 0.5.

Definition cos_zero_angle : number -> number := fun _ => lit 1.
Definition sin_zero_angle : number -> number := fun _ => lit 0.

(** [Math.cos] and [Math.sin] of [Math.PI / 2 = 1.5707963267948966]. *)
Definition cos_quarter_turn : number -> number :=
  fun _ => lit 6.123233995736766e-17.
Definition sin_quarter_turn : number -> number := fun _ => lit 1.

(** The state at the first frame, on an 800 x 600 canvas. *)
Definition session_start : state :=
  fst (main draws_centre (lit 800) (lit 600) 0).

(** The pointer moves to [(320, 240)] of the canvas, whose corner is at
    [(10, 20)] in the page. *)
Definition session_moved : state :=
  dispatch (mousemove (lit 330) (lit 260) (lit 10) (lit 20)) session_start.

(** The left button is pressed at 400 ms. *)
Definition session_first_press : state :=
  dispatch (mousedown 0 (lit 400)) session_moved.

(** It is released at 1000 ms: a transition from 200 down to 50 begins. *)
Definition session_released : state :=
  dispatch (mouseup 0 (lit 1000)) session_first_press.

(** Before any click: two frames, a pointer move, the key [c], and a
    press of the right button. *)
Definition session_without_click : list input :=
  [ Frame (lit 16) (lit 800) (lit 600);
    Deliver (mousemove (lit 330) (lit 260) (lit 10) (lit 20));
    Deliver (keydown "c");
    Deliver (mousedown 2 (lit 25));
    Frame (lit 33) (lit 800) (lit 600) ].

(** The button is pressed again at 1100 ms, half way through. *)
Definition session_pressed : state :=
  dispatch (mousedown 0 (lit 1100)) session_released.

(** ** Further predicates and inputs *)

(** [Math.random()] returns a number in [[0, 1)]. *)
Definition unit_draws (Math_random : nat -> Qc) : Prop :=
  forall n, (0 <= Math_random n)%Qc /\ (Math_random n < 1)%Qc.

(** The time a pointer event carries is a finite number. *)
Definition timed (i : input) : bool :=
  match i with
  | Deliver (mousedown _ now) | Deliver (mouseup _ now) => is_finite now
  | _ => true
  end.

(** The two transitions the handlers start, from a finite time on. *)
Definition in_transition (s : state) : Prop :=
  ((radius s = lit 50 /\ wantedRadius s = Some (lit 200)) \/
   (radius s = lit 200 /\ wantedRadius s = Some (lit 50))) /\
  exists t0 : Qc, lerpStart s = Some (Fin t0).

(** A square as [main] creates it, but for its position. *)
Definition initial_shape (sq : square) : Prop :=
  sq_rotationInRadians sq = lit 0 /\ sq_scaleX sq = lit 1 /\
  sq_scaleY sq = lit 1.

(** Every draw is [0.95]: each candidate is near a corner of the cube. *)
Definition draws_corner : nat -> Qc := fun _ => Q2Qc 0.95.

(** Every draw is [0.875]: each candidate is three quarters of the radius
    away from the centre on every axis. *)
Definition draws_far : nat -> Qc := fun _ => Q2Qc 0.875.

(** ** The sampler and the matrices on binary64 numbers

    The functions of the source whose result depends on rounding, with
    the arithmetic of the source: every [+], [-], [*], [/] and [>] is the
    IEEE 754 double-precision operation, and a decimal literal denotes
    the binary64 number nearest to it, as it does in JavaScript. *)

Set Warnings "-inexact-float".

Module binary64.

(** A matrix, as the nine-element array of the source. *)
Record mat3 : Type := Mat3 {
  m00 : float; m01 : float; m02 : float;
  m10 : float; m11 : float; m12 : float;
  m20 : float; m21 : float; m22 : float
}.

Definition vec3 : Type := (float * float * float)%type.

Module m3.

Definition projection (width height : float) : mat3 :=
  Mat3 (2 / width)%float 0%float 0%float
       0%float (-2 / height)%float 0%float
       (-1)%float 1%float 1%float.

Definition translation (tx ty : float) : mat3 :=
  Mat3 1%float 0%float 0%float
       0%float 1%float 0%float
       tx ty 1%float.

Section Trig.
Variables Math_cos Math_sin : float -> float.

Definition rotation (angleInRadians : float) : mat3 :=
  let c := Math_cos angleInRadians in
  let s := Math_sin angleInRadians in
  Mat3 c (- s)%float 0%float
       s c 0%float
       0%float 0%float 1%float.

End Trig.

Definition scaling (sx sy : float) : mat3 :=
  Mat3 sx 0%float 0%float
       0%float sy 0%float
       0%float 0%float 1%float.

Definition multiply (a b : mat3) : mat3 :=
  let a00 := m00 a in let a01 := m01 a in let a02 := m02 a in
  let a10 := m10 a in let a11 := m11 a in let a12 := m12 a in
  let a20 := m20 a in let a21 := m21 a in let a22 := m22 a in
  let b00 := m00 b in let b01 := m01 b in let b02 := m02 b in
  let b10 := m10 b in let b11 := m11 b in let b12 := m12 b in
  let b20 := m20 b in let b21 := m21 b in let b22 := m22 b in
  Mat3 (b00 * a00 + b01 * a10 + b02 * a20)%float
       (b00 * a01 + b01 * a11 + b02 * a21)%float
       (b00 * a02 + b01 * a12 + b02 * a22)%float
       (b10 * a00 + b11 * a10 + b12 * a20)%float
       (b10 * a01 + b11 * a11 + b12 * a21)%float
       (b10 * a02 + b11 * a12 + b12 * a22)%float
       (b20 * a00 + b21 * a10 + b22 * a20)%float
       (b20 * a01 + b21 * a11 + b22 * a21)%float
       (b20 * a02 + b21 * a12 + b22 * a22)%float.

End m3.

(** The vertex shader's [u_matrix * vec3(a_position, 1)], evaluated on
    the numbers JavaScript hands over. *)
Definition u_matrix_times (m : mat3) (v : vec3) : vec3 :=
  let '(x, y, z) := v in
  (m00 m * x + m10 m * y + m20 m * z,
   m01 m * x + m11 m * y + m21 m * z,
   m02 m * x + m12 m * y + m22 m * z)%float.

(** A point [{x, y, z}] of the sampler. *)
Record point : Type := Point { p_x : float; p_y : float; p_z : float }.

(** [a > b]: false as soon as one side is [NaN]. *)
Definition gtb (a b : float) : bool := PrimFloat.ltb b a.

Section Scene.

(** [pow2 a] is the value of [a ** 2], which ECMAScript leaves to the
    engine as an approximation of the square; [Math_random n] is the
    value of the [n]-th call of [Math.random()]. *)
Variable pow2 : float -> float.
Variable Math_random : nat -> float.
Variables Math_cos Math_sin : float -> float.

(** The body of the [do ... while]: one candidate from three draws. *)
Definition candidate (center : point) (radius : float) (calls : nat)
  : point :=
  let x := ((Math_random calls * 2 - 1) * radius)%float in
  let y := ((Math_random (calls + 1) * 2 - 1) * radius)%float in
  let z := ((Math_random (calls + 2) * 2 - 1) * radius)%float in
  Point (p_x center + x) (p_y center + y) (p_z center + z).

(** The left-hand side of the loop condition. *)
Definition distance2 (p center : point) : float :=
  (pow2 (p_x p - p_x center) + pow2 (p_y p - p_y center)
   + pow2 (p_z p - p_z center))%float.

(** The loop condition. *)
Definition rejected (p center : point) (radius : float) : bool :=
  gtb (distance2 p center) (pow2 radius).

(** The [do ... while] loop, [fuel] bounding the candidates tried. *)
Fixpoint sample (fuel : nat) (center : point) (radius : float)
    (calls : nat) : option (point * nat) :=
  match fuel with
  | O => None
  | S fuel' =>
      let p := candidate center radius calls in
      if rejected p center radius
      then sample fuel' center radius (calls + 3)
      else Some (p, calls + 3)
  end.

(** The [for] loop, with [n] iterations left. *)
Fixpoint generate_loop (fuel : nat) (center : point) (radius : float)
    (n : nat) (points : list point) (calls : nat)
  : option (list point * nat) :=
  match n with
  | O => Some (points, calls)
  | S n' =>
      '(p, calls') ← sample fuel center radius calls;
      generate_loop fuel center radius n' (points ++ [p]) calls'
  end.

Definition generatePointsInSphere (fuel : nat) (center : point)
    (radius : float) (numPoints : nat) (calls : nat)
  : option (list point * nat) :=
  generate_loop fuel center radius numPoints [] calls.

(** The matrix of one square (lines 171-179). *)
Definition square_matrix (clientWidth clientHeight : float)
    (translation : float * float)
    (rotationInRadians scaleX scaleY : float) : mat3 :=
  let projectionMatrix := m3.projection clientWidth clientHeight in
  let translationMatrix :=
    m3.translation (fst translation) (snd translation) in
  let rotationMatrix := m3.rotation Math_cos Math_sin rotationInRadians in
  let scaleMatrix := m3.scaling scaleX scaleY in
  let matrix := m3.multiply projectionMatrix translationMatrix in
  let matrix := m3.multiply matrix rotationMatrix in
  let matrix := m3.multiply matrix scaleMatrix in
  matrix.

End Scene.

(** Concrete inputs. *)

(** [a ** 2] evaluated as the product [a * a]. *)
Definition product_square (a : float) : float := (a * a)%float.

(** Draws in groups of six: the candidate [centre + 0.75 radius] on each
    axis, which is outside the sphere, then [centre + 0.5 radius]. *)
Definition draws_far_then_near : nat -> float :=
  fun n => if (n mod 6 <? 3)%nat then 0.875%float else 0.75%float.

(** A candidate next to the surface of the sphere. *)
Definition draws_near_surface : nat -> float :=
  fun n => match n with
           | 0 => 0.9671656751484163%float
           | 1 => 0.6782027832642471%float
           | _ => 0.5%float
           end.

(** [Math.PI / 2], with the values of [Math.cos] and [Math.sin] there. *)
Definition quarter_turn : float := 1.5707963267948966%float.
Definition cos_at_quarter_turn : float -> float :=
  fun _ => 6.123233995736766e-17%float.
Definition sin_at_quarter_turn : float -> float := fun _ => 1%float.

(** The rational number a finite binary64 value stands for. *)
Definition exact_value (x : float) : option Q :=
  match Prim2SF x with
  | S754_zero _ => Some 0%Q
  | S754_finite s m e =>
      Some ((if s then -1 else 1) * (Z.pos m # 1) * Qpower 2 e)%Q
  | _ => None
  end.

(** The squared distance of two points, without rounding. *)
Definition exact_distance2 (p c : point) : option Q :=
  px ← exact_value (p_x p); py ← exact_value (p_y p);
  pz ← exact_value (p_z p);
  cx ← exact_value (p_x c); cy ← exact_value (p_y c);
  cz ← exact_value (p_z c);
  Some ((px - cx) * (px - cx) + (py - cy) * (py - cy)
        + (pz - cz) * (pz - cz))%Q.

End binary64.

(** ** Arithmetic of finite numbers *)

Lemma Fin_eq (p q : Qc) : (p == q)%Q -> Fin p = Fin q.
Proof. intros H. f_equal. apply Qc_is_canon, H. Qed.

(** Statements about [Qc] are settled on the underlying rationals. *)
Ltac to_Q_in H :=
  repeat (progress (unfold Qcle, Qclt, Qcplus, Qcmult, Qcminus, Qcopp,
                      Qcdiv, Qcinv in H;
                    cbn [this Q2Qc] in H;
                    rewrite ?Qred_correct in H)).

Ltac to_Q :=
  repeat match goal with
         | H : Qcle _ _ |- _ => to_Q_in H
         | H : Qclt _ _ |- _ => to_Q_in H
         end;
  repeat (progress (unfold Qcle, Qclt, Qcplus, Qcmult, Qcminus, Qcopp,
                      Qcdiv, Qcinv;
                    cbn [this Q2Qc];
                    rewrite ?Qred_correct)).

(** Equality of closed values: the rationals inside are compared by
    evaluation, the proofs of canonicity they carry are irrelevant. *)
Ltac closed_eq :=
  repeat match goal with
         | |- Fin _ = Fin _ => apply Fin_eq; vm_compute; reflexivity
         | |- @eq Qc _ _ => apply Qc_is_canon; vm_compute; reflexivity
         | |- _ = _ => reflexivity
         | |- _ = _ => progress f_equal
         end.

Lemma Qccompare_Lt (p q : Qc) : (p ?= q)%Qc = Lt <-> (p < q)%Qc.
Proof. symmetry. apply Qclt_alt. Qed.

Lemma ltb_Fin (p q : Qc) : ltb (Fin p) (Fin q) = true <-> (p < q)%Qc.
Proof.
  cbn [ltb]. rewrite <- Qccompare_Lt.
  destruct (p ?= q)%Qc; split; congruence.
Qed.

Lemma ltb_Fin_false (p q : Qc) : ltb (Fin p) (Fin q) = false <-> (q <= p)%Qc.
Proof.
  split.
  - intros H. destruct (Qclt_le_dec p q) as [Hlt|Hle]; [|exact Hle].
    apply ltb_Fin in Hlt. congruence.
  - intros Hle. destruct (ltb (Fin p) (Fin q)) eqn:E; [|reflexivity].
    apply ltb_Fin in E. exfalso. exact (Qcle_not_lt _ _ Hle E).
Qed.

(** The three regimes of [clamp] on a finite argument. *)
Lemma clamp_below (x : Qc) :
  (x <= 0)%Qc -> clamp (Fin x) (lit 0) (lit 1) = lit 0.
Proof.
  intros Hx. unfold clamp, lit, Math_max, Math_min.
  destruct (ltb (Fin x) (Fin (Q2Qc 0))) eqn:E.
  - reflexivity.
  - apply ltb_Fin_false in E.
    assert (x = Q2Qc 0) as -> by (apply Qcle_antisym; assumption).
    reflexivity.
Qed.

Lemma clamp_between (x : Qc) :
  (0 <= x)%Qc -> (x <= 1)%Qc -> clamp (Fin x) (lit 0) (lit 1) = Fin x.
Proof.
  intros H0 H1. unfold clamp, lit, Math_max, Math_min.
  destruct (ltb (Fin x) (Fin (Q2Qc 0))) eqn:E.
  - apply ltb_Fin in E. exfalso. exact (Qcle_not_lt _ _ H0 E).
  - destruct (ltb (Fin (Q2Qc 1)) (Fin x)) eqn:E1; [|reflexivity].
    apply ltb_Fin in E1. exfalso. exact (Qcle_not_lt _ _ H1 E1).
Qed.

Lemma clamp_above (x : Qc) :
  (1 <= x)%Qc -> clamp (Fin x) (lit 0) (lit 1) = lit 1.
Proof.
  intros Hx. unfold clamp, lit, Math_max, Math_min.
  destruct (ltb (Fin x) (Fin (Q2Qc 0))) eqn:E.
  - apply ltb_Fin in E. exfalso.
    apply (Qcle_not_lt _ _ Hx). eapply Qclt_trans; [exact E|]. reflexivity.
  - destruct (ltb (Fin (Q2Qc 1)) (Fin x)) eqn:E1; [reflexivity|].
    apply ltb_Fin_false in E1.
    assert (x = Q2Qc 1) as -> by (apply Qcle_antisym; assumption).
    reflexivity.
Qed.

(** ** Pointer handlers and the radius transition *)

(** C1 (as the code has it): a left-button press at time [t] sets the
    target to 200 and restarts the interpolation at [t] from the constant
    50, a release sets the target to 50 and restarts from the constant
    200.  The radius of a later frame is interpolated from that constant:
    at the time of the event itself it is 50 after a press and 200 after
    a release, whatever the radius was when the event arrived. *)
Theorem pointer_restarts_from_constant (s : state) (t : Qc) (now : number) :
  let pressed := dispatch (mousedown 0 (Fin t)) s in
  let released := dispatch (mouseup 0 (Fin t)) s in
  (radius pressed = lit 50 /\ wantedRadius pressed = Some (lit 200)
   /\ lerpStart pressed = Some (Fin t)) /\
  (radius released = lit 200 /\ wantedRadius released = Some (lit 50)
   /\ lerpStart released = Some (Fin t)) /\
  newRadius pressed now
  = lerp (lit 50) (lit 200) ((now - Fin t) * lit 0.005) /\
  newRadius released now
  = lerp (lit 200) (lit 50) ((now - Fin t) * lit 0.005) /\
  newRadius pressed (Fin t) = lit 50 /\
  newRadius released (Fin t) = lit 200.
Proof.
  cbn zeta. cbn [dispatch Z.eqb radius wantedRadius lerpStart].
  do 4 (split; [repeat split|]).
  assert (E : ((Fin t - Fin t) * lit 0.005)%num = Fin (Q2Qc 0))
    by (apply Fin_eq; to_Q; ring).
  unfold newRadius, lerp.
  cbn [radius wantedRadius lerpStart ToNumber]. rewrite E.
  rewrite clamp_below by apply Qcle_refl.
  split; apply Fin_eq; vm_compute; reflexivity.
Qed.

(** C1 (as stated) fails: half way through the transition that a release
    at 1000 ms started, the interpolated radius is 125, while a press at
    1100 ms restarts from 50. *)
Lemma pointer_restart_not_from_current :
  newRadius session_released (lit 1100) = lit 125 /\
  radius session_pressed = lit 50 /\
  radius session_pressed <> newRadius session_released (lit 1100).
Proof.
  assert (E : newRadius session_released (lit 1100) = lit 125)
    by (apply Fin_eq; vm_compute; reflexivity).
  split; [exact E|]. split; [reflexivity|].
  rewrite E. intros H. apply (f_equal (fun n => match n with
                                              | Fin q => this q
                                              | _ => 0%Q end)) in H.
  vm_compute in H. discriminate H.
Qed.

(** C10: a press or a release of a button other than the left one
    leaves [radius], [wantedRadius] and [lerpStart], and the rest of the
    state, as they were. *)
Theorem other_buttons_ignored (button : Z) (now : number) (s : state) :
  button <> 0%Z ->
  let pressed := dispatch (mousedown button now) s in
  let released := dispatch (mouseup button now) s in
  (radius pressed = radius s /\ wantedRadius pressed = wantedRadius s
   /\ lerpStart pressed = lerpStart s) /\
  (radius released = radius s /\ wantedRadius released = wantedRadius s
   /\ lerpStart released = lerpStart s) /\
  pressed = s /\ released = s.
Proof.
  intros Hb. apply Z.eqb_neq in Hb. cbn [dispatch]. rewrite Hb. cbn zeta.
  repeat split.
Qed.

Lemma other_buttons_ignored_witness :
  radius (dispatch (mousedown 2 (lit 1200)) session_pressed) = lit 50 /\
  wantedRadius (dispatch (mouseup 1 (lit 1200)) session_pressed)
  = Some (lit 200).
Proof.
  destruct (other_buttons_ignored 2 (lit 1200) session_pressed
              ltac:(discriminate)) as ((Hr & _) & _).
  destruct (other_buttons_ignored 1 (lit 1200) session_pressed
              ltac:(discriminate)) as (_ & (_ & Hw & _) & _).
  split; [rewrite Hr|rewrite Hw]; reflexivity.
Defined.

(** C6: after a left-button press at [t0] the radius at [t0 + e] is the
    clamped interpolation from 50 to 200 at 0.005 per millisecond: 50 at
    0 ms, 125 at 100 ms, [50 + 0.005 e (200 - 50)] in between, and 200
    from 200 ms on. *)
Theorem radius_follows_clamped_lerp (s : state) (t0 e : Qc) :
  let pressed := dispatch (mousedown 0 (Fin t0)) s in
  newRadius pressed (Fin t0) = lit 50 /\
  newRadius pressed (Fin (t0 + Q2Qc 100)) = lit 125 /\
  newRadius pressed (Fin (t0 + Q2Qc 200)) = lit 200 /\
  ((0 <= e)%Qc -> (e <= Q2Qc 200)%Qc ->
   newRadius pressed (Fin (t0 + e))
   = Fin (Q2Qc 50 + e * Q2Qc 0.005 * (Q2Qc 200 - Q2Qc 50))) /\
  ((Q2Qc 200 <= e)%Qc -> newRadius pressed (Fin (t0 + e)) = lit 200).
Proof.
  cbn zeta.
  assert (A : forall d : Qc,
             newRadius (dispatch (mousedown 0 (Fin t0)) s) (Fin (t0 + d))
             = (lit 50 + clamp (Fin (d * Q2Qc 0.005)) (lit 0) (lit 1)
                         * (lit 200 - lit 50))%num).
  { intros d. unfold newRadius, lerp.
    cbn [dispatch Z.eqb radius wantedRadius lerpStart ToNumber].
    replace (Fin (t0 + d) - Fin t0)%num with (Fin d)
      by (apply Fin_eq; to_Q; ring).
    reflexivity. }
  assert (B : Fin t0 = Fin (t0 + Q2Qc 0)) by (apply Fin_eq; to_Q; ring).
  split; [|split; [|split; [|split]]].
  - transitivity (newRadius (dispatch (mousedown 0 (Fin t0)) s)
                             (Fin (t0 + Q2Qc 0))); [f_equal; exact B|].
    rewrite A, clamp_below.
    + apply Fin_eq. vm_compute. reflexivity.
    + to_Q. lra.
  - rewrite A, clamp_between.
    + apply Fin_eq. vm_compute. reflexivity.
    + to_Q. lra.
    + to_Q. lra.
  - rewrite A, clamp_above.
    + apply Fin_eq. vm_compute. reflexivity.
    + to_Q. lra.
  - intros H0 H200. rewrite A, clamp_between.
    + reflexivity.
    + to_Q. lra.
    + to_Q. lra.
  - intros H200. rewrite A, clamp_above.
    + apply Fin_eq. vm_compute. reflexivity.
    + to_Q. lra.
Qed.

Lemma radius_follows_clamped_lerp_witness :
  newRadius session_pressed (Fin (Q2Qc 1100 + Q2Qc 40)) = lit 80 /\
  newRadius session_pressed (Fin (Q2Qc 1100 + Q2Qc 250)) = lit 200.
Proof.
  destruct (radius_follows_clamped_lerp session_released (Q2Qc 1100)
              (Q2Qc 40)) as (_ & _ & _ & Hmid & _).
  destruct (radius_follows_clamped_lerp session_released (Q2Qc 1100)
              (Q2Qc 250)) as (_ & _ & _ & _ & Hhigh).
  split.
  - unfold session_pressed, lit. rewrite Hmid.
    + apply Fin_eq. vm_compute. reflexivity.
    + vm_compute. discriminate.
    + vm_compute. discriminate.
  - unfold session_pressed, lit. apply Hhigh. vm_compute. discriminate.
Defined.

(** ** Matrices *)

Lemma is_zero_false (q : Qc) : q <> 0%Qc -> is_zero q = false.
Proof.
  intros Hq. unfold is_zero. destruct (q ?= 0)%Qc eqn:E; try reflexivity.
  apply Qceq_alt in E. contradiction.
Qed.

Lemma div_Fin (p q : Qc) : q <> 0%Qc -> (Fin p / Fin q)%num = Fin (p / q).
Proof. intros Hq. cbn [div]. now rewrite is_zero_false. Qed.

Lemma finite_multiply (a b : mat3) :
  finite_mat3 a -> finite_mat3 b -> finite_mat3 (m3.multiply a b).
Proof.
  intros (a0 & a1 & a2 & a3 & a4 & a5 & a6 & a7 & a8 & ->)
         (b0 & b1 & b2 & b3 & b4 & b5 & b6 & b7 & b8 & ->).
  cbv [m3.multiply m00 m01 m02 m10 m11 m12 m20 m21 m22 add mul].
  unfold finite_mat3. do 9 eexists. reflexivity.
Qed.

Lemma finite_projection (w h : Qc) :
  w <> 0%Qc -> h <> 0%Qc -> finite_mat3 (m3.projection (Fin w) (Fin h)).
Proof.
  intros Hw Hh. unfold m3.projection, lit.
  rewrite !div_Fin by assumption.
  unfold finite_mat3, lit. do 9 eexists. reflexivity.
Qed.

Lemma finite_translation (tx ty : Qc) :
  finite_mat3 (m3.translation (Fin tx) (Fin ty)).
Proof. unfold finite_mat3, m3.translation, lit. do 9 eexists. reflexivity. Qed.

Lemma finite_scaling (sx sy : Qc) : finite_mat3 (m3.scaling (Fin sx) (Fin sy)).
Proof. unfold finite_mat3, m3.scaling, lit. do 9 eexists. reflexivity. Qed.

Lemma finite_rotation (Math_cos Math_sin : number -> number)
    (angle : number) (c s : Qc) :
  Math_cos angle = Fin c -> Math_sin angle = Fin s ->
  finite_mat3 (m3.rotation Math_cos Math_sin angle).
Proof.
  intros Hc Hs. unfold finite_mat3, m3.rotation, lit. rewrite Hc, Hs.
  cbn [neg]. do 9 eexists. reflexivity.
Qed.

Lemma vec3_Fin_eq (x y z x' y' z' : Qc) :
  x = x' -> y = y' -> z = z' ->
  ((Fin x, Fin y, Fin z) : vec3) = (Fin x', Fin y', Fin z').
Proof. intros -> -> ->. reflexivity. Qed.

(** The matrix [multiply a b], applied to a vector as the shader does,
    applies [b] first and [a] to the result. *)
Lemma multiply_applies_right_factor_first (a b : mat3) (x y z : Qc) :
  finite_mat3 a -> finite_mat3 b ->
  u_matrix_times (m3.multiply a b) (Fin x, Fin y, Fin z)
  = u_matrix_times a (u_matrix_times b (Fin x, Fin y, Fin z)).
Proof.
  intros (a0 & a1 & a2 & a3 & a4 & a5 & a6 & a7 & a8 & ->)
         (b0 & b1 & b2 & b3 & b4 & b5 & b6 & b7 & b8 & ->).
  cbv [u_matrix_times m3.multiply m00 m01 m02 m10 m11 m12 m20 m21 m22
       add mul].
  apply vec3_Fin_eq; ring.
Qed.

Lemma finite_apply (m : mat3) (x y z : Qc) :
  finite_mat3 m ->
  exists x' y' z' : Qc,
    u_matrix_times m (Fin x, Fin y, Fin z) = (Fin x', Fin y', Fin z').
Proof.
  intros (a0 & a1 & a2 & a3 & a4 & a5 & a6 & a7 & a8 & ->).
  cbv [u_matrix_times m00 m01 m02 m10 m11 m12 m20 m21 m22 add mul].
  do 3 eexists. reflexivity.
Qed.

(** Without rounding, the matrix of a square applied to a point as the
    shader does it scales first, then rotates, then translates, then
    projects, on every viewport. *)
Lemma exact_composition_order
    (Math_cos Math_sin : number -> number) (angle : number)
    (w h tx ty sx sy c s x y : Qc) :
  w <> 0%Qc -> h <> 0%Qc ->
  Math_cos angle = Fin c -> Math_sin angle = Fin s ->
  let P := m3.projection (Fin w) (Fin h) in
  let T := m3.translation (Fin tx) (Fin ty) in
  let R := m3.rotation Math_cos Math_sin angle in
  let S := m3.scaling (Fin sx) (Fin sy) in
  let matrix :=
    square_matrix Math_cos Math_sin (Fin w) (Fin h) (Fin tx, Fin ty) angle
                  (Fin sx) (Fin sy) in
  matrix = m3.multiply (m3.multiply (m3.multiply P T) R) S /\
  u_matrix_times matrix (Fin x, Fin y, lit 1)
  = u_matrix_times P
      (u_matrix_times T
         (u_matrix_times R (u_matrix_times S (Fin x, Fin y, lit 1)))).
Proof.
  intros Hw Hh Hc Hs P T R S matrix.
  assert (FP : finite_mat3 P) by (apply finite_projection; assumption).
  assert (FT : finite_mat3 T) by apply finite_translation.
  assert (FR : finite_mat3 R) by (eapply finite_rotation; eassumption).
  assert (FS : finite_mat3 S) by apply finite_scaling.
  split; [reflexivity|].
  unfold matrix, square_matrix. cbn [fst snd]. fold P T R S. unfold lit.
  rewrite multiply_applies_right_factor_first
    by (repeat apply finite_multiply; assumption).
  destruct (finite_apply S x y (Q2Qc 1) FS) as (x1 & y1 & z1 & ->).
  rewrite multiply_applies_right_factor_first
    by (repeat apply finite_multiply; assumption).
  destruct (finite_apply R x1 y1 z1 FR) as (x2 & y2 & z2 & ->).
  rewrite multiply_applies_right_factor_first by assumption.
  reflexivity.
Qed.

Lemma exact_composition_order_example :
  let P := m3.projection (lit 800) (lit 600) in
  let T := m3.translation (lit 5) (lit 5) in
  let R :=
    m3.rotation cos_quarter_turn sin_quarter_turn (lit 1.5707963267948966) in
  let S := m3.scaling (lit 2) (lit 1) in
  u_matrix_times (m3.multiply (m3.multiply (m3.multiply P T) R) S)
                 (lit 1, lit 0, lit 1)
  = u_matrix_times P
      (u_matrix_times T
         (u_matrix_times R (u_matrix_times S (lit 1, lit 0, lit 1)))).
Proof.
  apply (exact_composition_order cos_quarter_turn sin_quarter_turn
           (lit 1.5707963267948966)
           (Q2Qc 800) (Q2Qc 600) (Q2Qc 5) (Q2Qc 5) (Q2Qc 2) (Q2Qc 1)
           (Q2Qc 6.123233995736766e-17) (Q2Qc 1) (Q2Qc 1) (Q2Qc 0)).
  - vm_compute. discriminate.
  - vm_compute. discriminate.
  - reflexivity.
  - reflexivity.
Defined.



(** C8: the projection scales x by [2 / width] and y by [-2 / height]
    and translates by [(-1, 1)]; on an 800 x 600 viewport the pixel
    [(0, 0)] goes to [(-1, 1)] and [(800, 600)] to [(1, -1)]. *)
Theorem projection_pixels_to_clip_space (w h x y : Qc) :
  u_matrix_times (m3.projection (lit 800) (lit 600)) (lit 0, lit 0, lit 1)
  = (lit (-1), lit 1, lit 1) /\
  u_matrix_times (m3.projection (lit 800) (lit 600)) (lit 800, lit 600, lit 1)
  = (lit 1, lit (-1), lit 1) /\
  (w <> 0%Qc -> h <> 0%Qc ->
   u_matrix_times (m3.projection (Fin w) (Fin h)) (Fin x, Fin y, lit 1)
   = (Fin (Q2Qc 2 / w * x + Q2Qc (-1)), Fin (Q2Qc (-2) / h * y + Q2Qc 1),
      lit 1)).
Proof.
  assert (G : forall w h x y : Qc, w <> 0%Qc -> h <> 0%Qc ->
            u_matrix_times (m3.projection (Fin w) (Fin h))
                           (Fin x, Fin y, lit 1)
            = (Fin (Q2Qc 2 / w * x + Q2Qc (-1)),
               Fin (Q2Qc (-2) / h * y + Q2Qc 1), lit 1)).
  { intros w' h' x' y' Hw Hh. unfold m3.projection, lit.
    rewrite !div_Fin by assumption.
    cbv [u_matrix_times m00 m01 m02 m10 m11 m12 m20 m21 m22 add mul lit].
    apply vec3_Fin_eq; apply Qc_is_canon; to_Q; ring. }
  split; [|split].
  - change (lit 800) with (Fin (Q2Qc 800)).
    change (lit 600) with (Fin (Q2Qc 600)).
    change (lit 0) with (Fin (Q2Qc 0)).
    rewrite G by (vm_compute; discriminate).
    apply vec3_Fin_eq; apply Qc_is_canon; vm_compute; reflexivity.
  - change (lit 800) with (Fin (Q2Qc 800)).
    change (lit 600) with (Fin (Q2Qc 600)).
    rewrite G by (vm_compute; discriminate).
    apply vec3_Fin_eq; apply Qc_is_canon; vm_compute; reflexivity.
  - apply G.
Qed.

Lemma projection_pixels_to_clip_space_witness :
  u_matrix_times (m3.projection (lit 800) (lit 600)) (lit 400, lit 300, lit 1)
  = (lit 0, lit 0, lit 1).
Proof.
  destruct (projection_pixels_to_clip_space (Q2Qc 800) (Q2Qc 600)
              (Q2Qc 400) (Q2Qc 300)) as (_ & _ & G).
  change (lit 800) with (Fin (Q2Qc 800)).
  change (lit 600) with (Fin (Q2Qc 600)).
  change (lit 400) with (Fin (Q2Qc 400)).
  change (lit 300) with (Fin (Q2Qc 300)).
  rewrite G by (vm_compute; discriminate).
  apply vec3_Fin_eq; apply Qc_is_canon; vm_compute; reflexivity.
Defined.

(** ** The rejection sampler *)

Section Sampler.
Variable Math_random : nat -> Qc.

(** What [sample] returns is a candidate that the loop condition let
    through. *)
Lemma sample_returns_accepted (fuel : nat) (center : point) (r : number) :
  forall calls p calls',
    sample Math_random fuel center r calls = Some (p, calls') ->
    rejected p center r = false /\
    exists j, p = candidate Math_random center r (calls + 3 * j)
              /\ calls' = calls + 3 * (j + 1).
Proof.
  induction fuel as [|fuel IH]; intros calls p calls' H; [discriminate|].
  cbn [sample] in H.
  destruct (rejected (candidate Math_random center r calls) center r) eqn:E.
  - apply IH in H as (Hacc & j & -> & ->). split; [exact Hacc|].
    exists (S j). split; [f_equal|]; lia.
  - injection H as <- <-. split; [exact E|].
    exists 0. split; [f_equal|]; lia.
Qed.

(** [sample] returns as soon as the fuel reaches an accepted candidate. *)
Lemma sample_terminates (fuel : nat) (center : point) (r : number) :
  forall calls,
    (exists j, (j < fuel)%nat /\
       (rejected (candidate Math_random center r (calls + 3 * j)) center r
        = false)) ->
    exists res, sample Math_random fuel center r calls = Some res.
Proof.
  induction fuel as [|fuel IH]; intros calls (j & Hj & Hacc); [lia|].
  cbn [sample].
  destruct (rejected (candidate Math_random center r calls) center r) eqn:E;
    [|eauto].
  apply IH. destruct j as [|j].
  - replace (calls + 3 * 0) with calls in Hacc by lia. congruence.
  - exists j. split; [lia|].
    replace (calls + 3 + 3 * j) with (calls + 3 * S j) by lia. exact Hacc.
Qed.

Lemma generate_loop_returns (fuel : nat) (center : point) (r : number)
    (n : nat) :
  forall points calls out calls',
    generate_loop Math_random fuel center r n points calls
    = Some (out, calls') ->
    exists new, out = points ++ new /\ length new = n /\
      Forall (fun p => rejected p center r = false /\
                       exists j, p = candidate Math_random center r j) new.
Proof.
  induction n as [|n IH]; intros points calls out calls' H; cbn in H.
  - injection H as <- <-. exists []. rewrite app_nil_r. repeat split.
    constructor.
  - destruct (sample Math_random fuel center r calls) as [[p c1]|] eqn:E;
      [|discriminate].
    cbn in H. apply IH in H as (new & -> & Hlen & Hall).
    apply sample_returns_accepted in E as (Hacc & j & Hp & _).
    exists (p :: new). rewrite <- app_assoc. cbn. repeat split.
    + now rewrite Hlen.
    + constructor; [|exact Hall]. split; [exact Hacc|eauto].
Qed.

(** With draws in which every run of [fuel] candidates holds an accepted
    one, the sampler returns. *)
Lemma generate_loop_terminates (fuel : nat) (center : point) (r : number) :
  fair_draws Math_random fuel center r ->
  forall n points calls,
    exists res,
      generate_loop Math_random fuel center r n points calls = Some res.
Proof.
  intros Hfair n. induction n as [|n IH]; intros points calls; cbn.
  - eauto.
  - destruct (sample_terminates fuel center r calls (Hfair calls))
      as ([p c1] & ->).
    cbn. apply IH.
Qed.

End Sampler.

(** *** On binary64 numbers

    The comparison of two binary64 numbers. *)
Lemma SFcompare_refl (x : spec_float) :
  x <> S754_nan -> SFcompare x x = Some Eq.
Proof.
  destruct x as [s|s| |s m e]; simpl; try congruence; intros _.
  - destruct s; reflexivity.
  - destruct s; rewrite Z.compare_refl;
      change (Pos.compare_cont Eq m m) with (Pos.compare m m);
      rewrite Pos.compare_refl; reflexivity.
Qed.

Lemma is_nan_spec (x : float) : is_nan x = true <-> Prim2SF x = S754_nan.
Proof.
  unfold is_nan. rewrite FloatAxioms.eqb_spec. unfold SFeqb. split.
  - intros H. destruct (Prim2SF x) eqn:E; try reflexivity;
      rewrite SFcompare_refl in H by congruence; discriminate.
  - intros ->. reflexivity.
Qed.

Lemma SFcompare_antisym (x y : spec_float) :
  SFcompare y x = option_map CompOpp (SFcompare x y).
Proof.
  destruct x as [s|s| |s m e], y as [s'|s'| |s' m' e']; simpl;
    try reflexivity;
    try (destruct s; reflexivity); try (destruct s'; reflexivity);
    try (destruct s, s'; reflexivity).
  destruct s, s'; simpl; try reflexivity; f_equal;
    rewrite (Z.compare_antisym e e'); destruct (e ?= e')%Z; simpl;
    try reflexivity;
    change (Pos.compare_cont Eq m' m) with (Pos.compare m' m);
    change (Pos.compare_cont Eq m m') with (Pos.compare m m');
    rewrite (Pos.compare_antisym m m'); destruct (m ?= m')%positive;
    reflexivity.
Qed.

(** A test [a > b] that fails means [a <= b], unless one side is [NaN]. *)
Lemma binary64_not_greater_is_leb (a b : float) :
  binary64.gtb a b = false -> is_nan a = false -> is_nan b = false ->
  PrimFloat.leb a b = true.
Proof.
  unfold binary64.gtb. rewrite FloatAxioms.ltb_spec, FloatAxioms.leb_spec.
  unfold SFltb, SFleb. intros H Ha Hb.
  assert (Prim2SF a <> S754_nan) as Ha'
    by (intros E; apply is_nan_spec in E; congruence).
  assert (Prim2SF b <> S754_nan) as Hb'
    by (intros E; apply is_nan_spec in E; congruence).
  rewrite (SFcompare_antisym (Prim2SF a) (Prim2SF b)) in H.
  destruct (Prim2SF a) as [s|s| |s m e], (Prim2SF b) as [s'|s'| |s' m' e'];
    try congruence;
    destruct (SFcompare _ _) as [[]|] eqn:E; simpl in *; try congruence;
    try reflexivity; try discriminate.
Qed.

(** With a [NaN] on either side [a > b] is false. *)
Lemma binary64_NaN_is_not_greater (a b : float) :
  is_nan a = true \/ is_nan b = true -> binary64.gtb a b = false.
Proof.
  unfold binary64.gtb. rewrite FloatAxioms.ltb_spec. unfold SFltb.
  intros [H|H]; apply is_nan_spec in H; rewrite H.
  - destruct (Prim2SF b); reflexivity.
  - reflexivity.
Qed.

Section Binary64Sampler.
Variable pow2 : float -> float.
Variable Math_random : nat -> float.

(** What the binary64 loops return is made of candidates that the loop
    condition let through. *)
Lemma binary64_sample_returns (fuel : nat) (center : binary64.point)
    (r : float) :
  forall calls p calls',
    binary64.sample pow2 Math_random fuel center r calls = Some (p, calls') ->
    binary64.rejected pow2 p center r = false /\
    exists j, p = binary64.candidate Math_random center r (calls + 3 * j)
              /\ calls' = calls + 3 * (j + 1).
Proof.
  induction fuel as [|fuel IH]; intros calls p calls' H; [discriminate|].
  cbn [binary64.sample] in H.
  destruct (binary64.rejected pow2
              (binary64.candidate Math_random center r calls) center r) eqn:E.
  - apply IH in H as (Hacc & j & -> & ->). split; [exact Hacc|].
    exists (S j). split; [f_equal|]; lia.
  - injection H as <- <-. split; [exact E|].
    exists 0. split; [f_equal|]; lia.
Qed.

Lemma binary64_generate_loop_returns (fuel : nat) (center : binary64.point)
    (r : float) (n : nat) :
  forall points calls out calls',
    binary64.generate_loop pow2 Math_random fuel center r n points calls
    = Some (out, calls') ->
    exists new, out = points ++ new /\ length new = n /\
      Forall (fun p => binary64.rejected pow2 p center r = false /\
                       exists j, p = binary64.candidate Math_random center r j)
             new.
Proof.
  induction n as [|n IH]; intros points calls out calls' H; cbn in H.
  - injection H as <- <-. exists []. rewrite app_nil_r. repeat split.
    constructor.
  - destruct (binary64.sample pow2 Math_random fuel center r calls)
      as [[p c1]|] eqn:E; [|discriminate].
    cbn in H. apply IH in H as (new & -> & Hlen & Hall).
    apply binary64_sample_returns in E as (Hacc & j & Hp & _).
    exists (p :: new). rewrite <- app_assoc. cbn. repeat split.
    + now rewrite Hlen.
    + constructor; [|exact Hall]. split; [exact Hacc|eauto].
Qed.

(** The binary64 sampler returns as soon as, among any [fuel] successive
    candidates, one passes the test. *)
Lemma binary64_sample_terminates (fuel : nat) (center : binary64.point)
    (r : float) :
  forall calls,
    (exists j, (j < fuel)%nat /\
       binary64.rejected pow2
         (binary64.candidate Math_random center r (calls + 3 * j)) center r
       = false) ->
    exists res, binary64.sample pow2 Math_random fuel center r calls = Some res.
Proof.
  induction fuel as [|fuel IH]; intros calls (j & Hj & Hacc); [lia|].
  cbn [binary64.sample].
  destruct (binary64.rejected pow2
              (binary64.candidate Math_random center r calls) center r) eqn:E;
    [|eauto].
  apply IH. destruct j as [|j].
  - replace (calls + 3 * 0) with calls in Hacc by lia. congruence.
  - exists j. split; [lia|].
    replace (calls + 3 + 3 * j) with (calls + 3 * S j) by lia. exact Hacc.
Qed.

Lemma binary64_generate_loop_terminates (fuel : nat)
    (center : binary64.point) (r : float) :
  (forall calls, exists j,
     (j < fuel)%nat /\
     binary64.rejected pow2
       (binary64.candidate Math_random center r (calls + 3 * j)) center r
     = false) ->
  forall n points calls,
    exists res,
      binary64.generate_loop pow2 Math_random fuel center r n points calls
      = Some res.
Proof.
  intros Hfair n. induction n as [|n IH]; intros points calls; cbn.
  - eauto.
  - destruct (binary64_sample_terminates fuel center r calls (Hfair calls))
      as ([p c1] & ->).
    cbn. apply IH.
Qed.

End Binary64Sampler.




(** ** Radius zero *)

(** With radius 0 a candidate is the centre itself. *)
Lemma candidate_zero_radius (Math_random : nat -> Qc) (c : point)
    (calls : nat) :
  candidate Math_random c (lit 0) calls = c.
Proof.
  destruct c as [cx cy cz]. unfold candidate. cbn [p_x p_y p_z].
  f_equal.
  - destruct cx as [| |q]; try reflexivity.
    cbv [add sub mul neg lit]. apply Fin_eq. to_Q. ring.
  - destruct cy as [| |q]; try reflexivity.
    cbv [add sub mul neg lit]. apply Fin_eq. to_Q. ring.
  - destruct cz as [| |q]; try reflexivity.
    cbv [add sub mul neg lit]. apply Fin_eq. to_Q. ring.
Qed.

Lemma sub_self (a : number) :
  (a - a)%num = NaN \/ (a - a)%num = Fin (Q2Qc 0).
Proof.
  destruct a as [|s|q].
  - left. reflexivity.
  - left. destruct s; reflexivity.
  - right. cbv [sub add neg]. apply Fin_eq. to_Q. ring.
Qed.

(** The centre is never rejected with radius 0: its squared distance to
    itself is 0, or [NaN] when a coordinate is not finite. *)
Lemma centre_accepted_zero_radius (c : point) : rejected c c (lit 0) = false.
Proof.
  destruct c as [cx cy cz]. unfold rejected, gtb, distance2.
  cbn [p_x p_y p_z].
  destruct (sub_self cx) as [-> | ->]; [reflexivity|].
  destruct (sub_self cy) as [-> | ->]; [reflexivity|].
  destruct (sub_self cz) as [-> | ->]; [reflexivity|].
  reflexivity.
Qed.

Lemma generate_loop_zero_radius (Math_random : nat -> Qc) (fuel n : nat)
    (c : point) :
  forall points calls,
    generate_loop Math_random (S fuel) c (lit 0) n points calls
    = Some (points ++ replicate n c, calls + 3 * n).
Proof.
  induction n as [|n IH]; intros points calls; cbn [generate_loop replicate].
  - rewrite app_nil_r. do 2 f_equal. lia.
  - cbn [sample]. rewrite candidate_zero_radius, centre_accepted_zero_radius.
    cbn [mbind option_bind]. rewrite IH, <- app_assoc. cbn [app].
    do 2 f_equal. lia.
Qed.

(** C5: with radius 0 the first candidate of every point is accepted,
    whatever the centre and whatever [Math.random] returns: the candidate
    is the centre itself, its squared distance and the squared radius are
    both 0 (for a finite centre), and [0 > 0] is false.  The loop uses
    three draws per point with any positive fuel and returns [k] copies
    of the centre; five points around the origin are five copies of the
    origin. *)
Theorem zero_radius_accepts_first_candidate (Math_random : nat -> Qc)
    (fuel calls k : nat) (c : point) (cx cy cz : Qc) :
  let origin := Point (lit 0) (lit 0) (lit 0) in
  let finite_centre := Point (Fin cx) (Fin cy) (Fin cz) in
  candidate Math_random c (lit 0) calls = c
  /\ rejected (candidate Math_random c (lit 0) calls) c (lit 0) = false
  /\ sample Math_random (S fuel) c (lit 0) calls = Some (c, calls + 3)
  /\ generatePointsInSphere Math_random (S fuel) c (lit 0) k calls
     = Some (replicate k c, calls + 3 * k)
  /\ distance2 (candidate Math_random finite_centre (lit 0) calls)
               finite_centre = lit 0
  /\ pow2 (lit 0) = lit 0
  /\ generatePointsInSphere Math_random (S fuel) origin (lit 0) 5 calls
     = Some ([origin; origin; origin; origin; origin], calls + 15).
Proof.
  cbn zeta. rewrite !candidate_zero_radius.
  split; [reflexivity|].
  split; [apply centre_accepted_zero_radius|].
  split.
  { cbn [sample]. rewrite candidate_zero_radius, centre_accepted_zero_radius.
    reflexivity. }
  split.
  { unfold generatePointsInSphere. rewrite generate_loop_zero_radius.
    reflexivity. }
  split.
  { cbv [distance2 p_x p_y p_z pow2 sub add neg mul lit]. apply Fin_eq.
    to_Q. ring. }
  split; [apply Fin_eq; vm_compute; reflexivity|].
  unfold generatePointsInSphere. rewrite generate_loop_zero_radius.
  reflexivity.
Qed.

(** ** The drawing loop *)

Section Frame.
Variable Math_random : nat -> Qc.
Variables Math_cos Math_sin : number -> number.
Variables clientWidth clientHeight : number.
Variable colorMode : bool.
Variable spherePoints : list point.

Lemma squares_loop_returns (n : nat) :
  forall i (sqs : list square) calls drawn out (sqs' : list square) calls',
    squares_loop Math_random Math_cos Math_sin clientWidth clientHeight
                 colorMode spherePoints n i sqs calls drawn
    = Some (out, sqs', calls') ->
    exists new : list command,
      out = drawn ++ new /\ length new = n /\ length sqs' = length sqs /\
      (forall j, j < i \/ i + n <= j -> sqs' !! j = sqs !! j) /\
      (forall j, i <= j -> j < i + n ->
         exists sq p color,
           sqs !! j = Some sq /\ spherePoints !! j = Some p /\
           new !! (j - i)
           = Some (drawn_for Math_cos Math_sin clientWidth clientHeight
                             sq color) /\
           sqs' !! j = Some (moved_to sq p)).
Proof.
  induction n as [|n IH]; intros i sqs calls drawn out sqs' calls' H.
  - cbn in H. injection H as <- <- <-. exists [].
    rewrite app_nil_r. repeat split; intros; lia.
  - cbn [squares_loop] in H.
    destruct (sqs !! i) as [sq|] eqn:Esq; [|discriminate].
    destruct (spherePoints !! i) as [p|] eqn:Ep; [|discriminate].
    cbn [mbind option_bind] in H.
    destruct (square_color Math_random colorMode calls) as [color calls1].
    apply IH in H as (new & -> & Hlen & Hsize & Hout & Hin).
    fold (moved_to sq p) in *.
    fold (drawn_for Math_cos Math_sin clientWidth clientHeight sq color) in *.
    set (cmd := drawn_for Math_cos Math_sin clientWidth clientHeight sq color)
      in *.
    assert (Hi : i < length sqs) by (eapply lookup_lt_Some; exact Esq).
    exists (cmd :: new). rewrite <- app_assoc. cbn [app].
    split; [reflexivity|]. split; [cbn; lia|].
    split; [rewrite Hsize; apply length_insert|]. split.
    + intros j Hj. rewrite Hout by lia.
      apply list_lookup_insert_ne. lia.
    + intros j Hlo Hhi. destruct (decide (j = i)) as [->|Hne].
      * exists sq, p, color. rewrite Nat.sub_diag.
        split; [exact Esq|]. split; [exact Ep|]. split; [reflexivity|].
        rewrite Hout by lia. apply list_lookup_insert_eq. exact Hi.
      * destruct (Hin j) as (sq' & p' & color' & Hsq' & Hp' & Hcmd & Hnew);
          [lia|lia|].
        rewrite list_lookup_insert_ne in Hsq' by lia.
        exists sq', p', color'. split; [exact Hsq'|]. split; [exact Hp'|].
        split; [|exact Hnew].
        replace (j - i) with (S (j - S i)) by lia. exact Hcmd.
Qed.

Lemma squares_loop_total (n : nat) :
  forall i (sqs : list square) calls drawn,
    i + n <= length sqs -> i + n <= length spherePoints ->
    exists res,
      squares_loop Math_random Math_cos Math_sin clientWidth clientHeight
                   colorMode spherePoints n i sqs calls drawn = Some res.
Proof.
  induction n as [|n IH]; intros i sqs calls drawn Hs Hp; cbn [squares_loop].
  - eauto.
  - destruct (lookup_lt_is_Some_2 sqs i) as [sq ->]; [lia|].
    destruct (lookup_lt_is_Some_2 spherePoints i) as [p ->]; [lia|].
    cbn [mbind option_bind].
    destruct (square_color Math_random colorMode calls) as [color calls1].
    apply IH; [rewrite length_insert|]; lia.
Qed.

End Frame.

(** The buffer [setTriangles] fills for the square at [(x, y)]. *)
Lemma square_vertices (x y : number) :
  setTriangles (square_triangles x y)
  = [x; y; (x + lit 5)%num; y; x; (y + lit 5)%num;
     (x + lit 5)%num; y; (x + lit 5)%num; (y + lit 5)%num;
     x; (y + lit 5)%num].
Proof. reflexivity. Qed.

(** C9: in a frame, for every index [i], the vertices and the matrix
    drawn are built from the position the square had before the frame,
    and the position stored for the next frame is half of the x and y of
    the [i]-th sampled point. *)
Theorem frame_draws_stale_position_then_updates
    (Math_random : nat -> Qc) (Math_cos Math_sin : number -> number)
    (fuel : nat) (now clientWidth clientHeight : number)
    (s : state) (calls : nat)
    (drawn : list command) (s' : state) (calls' : nat) :
  drawScene Math_random Math_cos Math_sin fuel now clientWidth clientHeight
            s calls = Some (drawn, s', calls') ->
  exists spherePoints calls1,
    generatePointsInSphere Math_random fuel
      (Point (mouseX s) (mouseY s) (lit 0)) (newRadius s now)
      numberOfSquares calls = Some (spherePoints, calls1) /\
    length drawn = numberOfSquares /\
    forall i, i < numberOfSquares ->
      exists sq p color,
        squaresData s !! i = Some sq /\ spherePoints !! i = Some p /\
        drawn !! i
        = Some (Command
                  (let x := sq_x sq in
                   let y := sq_y sq in
                   [x; y; (x + lit 5)%num; y; x; (y + lit 5)%num;
                    (x + lit 5)%num; y; (x + lit 5)%num; (y + lit 5)%num;
                    x; (y + lit 5)%num])
                  (m3.multiply
                     (m3.multiply
                        (m3.multiply
                           (m3.projection clientWidth clientHeight)
                           (m3.translation (sq_x sq) (sq_y sq)))
                        (m3.rotation Math_cos Math_sin
                                     (sq_rotationInRadians sq)))
                     (m3.scaling (sq_scaleX sq) (sq_scaleY sq)))
                  color) /\
        squaresData s' !! i
        = Some (Square (p_x p * lit 0.5) (p_y p * lit 0.5)
                       (sq_rotationInRadians sq) (sq_scaleX sq)
                       (sq_scaleY sq)).
Proof.
  intros H. unfold drawScene in H.
  destruct (generatePointsInSphere _ _ _ _ _ _) as [[pts calls1]|] eqn:Egen;
    [|discriminate].
  cbn [mbind option_bind] in H.
  destruct (squares_loop _ _ _ _ _ _ _ _ _ _ _ _) as [[[out sqs'] calls2]|]
    eqn:Eloop; [|discriminate].
  cbn [mbind option_bind] in H. injection H as <- <- <-.
  apply squares_loop_returns in Eloop
    as (new & -> & Hlen & _ & _ & Hin).
  exists pts, calls1. split; [reflexivity|]. split; [exact Hlen|].
  intros i Hi. destruct (Hin i) as (sq & p & color & Hsq & Hp & Hcmd & Hnew);
    [lia|lia|].
  exists sq, p, color. rewrite Nat.sub_0_r in Hcmd.
  split; [exact Hsq|]. split; [exact Hp|]. split; [exact Hcmd|exact Hnew].
Qed.

Lemma frame_draws_stale_position_then_updates_witness :
  exists drawn s' calls',
    drawScene draws_centre cos_zero_angle sin_zero_angle 1
              (lit 1150) (lit 800) (lit 600) session_pressed 200
    = Some (drawn, s', calls') /\
    length drawn = numberOfSquares /\
    squaresData session_pressed !! 7
    = Some (Square (lit 200) (lit 150) (lit 0) (lit 1) (lit 1)) /\
    (exists color,
       drawn !! 7
       = Some (Command
                 (setTriangles (square_triangles (lit 200) (lit 150)))
                 (square_matrix cos_zero_angle sin_zero_angle (lit 800)
                    (lit 600) (lit 200, lit 150) (lit 0) (lit 1) (lit 1))
                 color)) /\
    squaresData s' !! 7
    = Some (Square (lit 160) (lit 120) (lit 0) (lit 1) (lit 1)).
Proof.
  destruct (drawScene draws_centre cos_zero_angle sin_zero_angle
              1 (lit 1150) (lit 800) (lit 600) session_pressed 200)
    as [[[drawn s'] calls']|] eqn:E; [|vm_compute in E; discriminate E].
  exists drawn, s', calls'. split; [reflexivity|].
  destruct (frame_draws_stale_position_then_updates _ _ _ _ _ _ _ _ _ _ _ _ E)
    as (pts & calls1 & Hgen & Hlen & Hall).
  split; [exact Hlen|].
  destruct (Hall 7) as (sq & p & color & Hsq & Hp & Hcmd & Hnew);
    [unfold numberOfSquares; lia|].
  assert (Esq : squaresData session_pressed !! 7
                = Some (Square (lit 200) (lit 150) (lit 0) (lit 1) (lit 1)))
    by (vm_compute; closed_eq).
  rewrite Esq in Hsq. injection Hsq as <-.
  assert (Ep : pts !! 7 = Some (Point (lit 320) (lit 240) (lit 0))).
  { vm_compute in Hgen. injection Hgen as <- _. vm_compute. closed_eq. }
  rewrite Ep in Hp. injection Hp as <-.
  split; [exact Esq|]. split; [exists color; exact Hcmd|].
  rewrite Hnew. vm_compute. closed_eq.
Defined.

(** ** The first frame *)

Lemma candidate_NaN_radius (Math_random : nat -> Qc) (center : point)
    (calls : nat) :
  candidate Math_random center NaN calls = Point NaN NaN NaN.
Proof.
  destruct center as [cx cy cz]. unfold candidate. cbn [p_x p_y p_z].
  destruct cx, cy, cz; reflexivity.
Qed.

Lemma generate_loop_NaN_radius (Math_random : nat -> Qc) (fuel : nat)
    (center : point) (n : nat) :
  forall points calls,
    generate_loop Math_random (S fuel) center NaN n points calls
    = Some (points ++ replicate n (Point NaN NaN NaN), calls + 3 * n).
Proof.
  induction n as [|n IH]; intros points calls; cbn [generate_loop replicate].
  - rewrite app_nil_r. do 2 f_equal. lia.
  - cbn [sample]. rewrite candidate_NaN_radius.
    replace (rejected (Point NaN NaN NaN) center NaN) with false
      by (destruct center as [[] [] []]; reflexivity).
    cbn [mbind option_bind]. rewrite IH, <- app_assoc. cbn [app].
    do 2 f_equal. lia.
Qed.

Lemma init_loop_squares (Math_random : nat -> Qc) (width height : number)
    (n : nat) :
  forall (acc : list square) calls,
    let '(sqs, _) := init_loop Math_random width height n acc calls in
    length sqs = length acc + n /\
    (Forall unit_scale acc -> Forall unit_scale sqs).
Proof.
  induction n as [|n IH]; intros acc calls; cbn [init_loop].
  - split; [lia|auto].
  - match goal with
    | |- context [init_loop _ _ _ _ ?a ?c] => specialize (IH a c)
    end.
    destruct (init_loop _ _ _ _ _ _) as [sqs calls1].
    destruct IH as [Hlen Hall]. rewrite length_app in Hlen. cbn in Hlen.
    split; [lia|]. intros Hacc. apply Hall.
    apply Forall_app. split; [exact Hacc|].
    constructor; [split; reflexivity|constructor].
Qed.


(** C3 (evaluation): the first frame after [main], before any click,
    returns and leaves every square at the position [(NaN, NaN)]; the
    scales are still 1. *)
Theorem first_frame_positions_are_NaN (Math_random : nat -> Qc)
    (Math_cos Math_sin : number -> number) (width height : number)
    (calls fuel : nat) (now clientWidth clientHeight : number) :
  exists drawn s' calls',
    drawScene Math_random Math_cos Math_sin (S fuel) now clientWidth
              clientHeight (fst (main Math_random width height calls))
              (snd (main Math_random width height calls))
    = Some (drawn, s', calls') /\
    length (squaresData s') = numberOfSquares /\
    Forall (fun sq => sq_x sq = NaN /\ sq_y sq = NaN /\
                      sq_scaleX sq = lit 1 /\ sq_scaleY sq = lit 1)
           (squaresData s').
Proof.
  unfold main.
  pose proof (init_loop_squares Math_random width height numberOfSquares
                [] calls) as Hinit.
  destruct (init_loop _ _ _ _ _ _) as [sqs calls0].
  destruct Hinit as [Hlen Hscale]. cbn [length Nat.add] in Hlen.
  specialize (Hscale (Forall_nil_2 _)).
  cbn [fst snd]. unfold drawScene, generatePointsInSphere.
  replace (newRadius _ now) with NaN
    by (unfold newRadius; cbn [radius wantedRadius lerpStart ToNumber];
        destruct now; reflexivity).
  cbn [mouseX mouseY colorMode squaresData radius wantedRadius lerpStart].
  rewrite generate_loop_NaN_radius. cbn [mbind option_bind app].
  destruct (squares_loop_total Math_random Math_cos Math_sin clientWidth
              clientHeight false
              (replicate numberOfSquares (Point NaN NaN NaN))
              numberOfSquares 0 sqs (calls0 + 3 * numberOfSquares) [])
    as ([[out sqs'] calls2] & Eloop);
    [lia|rewrite length_replicate; lia|].
  rewrite Eloop. cbn [mbind option_bind].
  apply squares_loop_returns in Eloop as (new & _ & _ & Hsize & _ & Hin).
  exists out, (State (lit 0) (lit 0) (lit 50) None None false sqs'), calls2.
  split; [reflexivity|]. cbn [squaresData].
  split; [lia|]. apply Forall_lookup. intros j sq' Hj.
  assert (Hlt : j < numberOfSquares)
    by (apply lookup_lt_Some in Hj; lia).
  destruct (Hin j) as (sq & p & color & Hsq & Hp & _ & Hnew); [lia|lia|].
  apply lookup_replicate in Hp as [-> _].
  rewrite Hj in Hnew. injection Hnew as ->.
  rewrite Forall_lookup in Hscale. destruct (Hscale j sq Hsq) as [Hsx Hsy].
  unfold moved_to. cbn. auto.
Qed.

(** ** Before the first click *)

Lemma drawScene_keeps_transition (Math_random : nat -> Qc)
    (Math_cos Math_sin : number -> number) (fuel : nat)
    (now clientWidth clientHeight : number) (s : state) (calls : nat)
    (drawn : list command) (s' : state) (calls' : nat) :
  drawScene Math_random Math_cos Math_sin fuel now clientWidth clientHeight
            s calls = Some (drawn, s', calls') ->
  radius s' = radius s /\ wantedRadius s' = wantedRadius s /\
  lerpStart s' = lerpStart s.
Proof.
  unfold drawScene. intros H.
  destruct (generatePointsInSphere _ _ _ _ _ _) as [[pts calls1]|];
    [|discriminate].
  cbn [mbind option_bind] in H.
  destruct (squares_loop _ _ _ _ _ _ _ _ _ _ _ _) as [[[out sqs'] calls2]|];
    [|discriminate].
  cbn [mbind option_bind] in H. injection H as <- <- <-. repeat split.
Qed.

Lemma dispatch_keeps_transition (ev : event) (s : state) :
  left_button (Deliver ev) = false ->
  radius (dispatch ev s) = radius s /\
  wantedRadius (dispatch ev s) = wantedRadius s /\
  lerpStart (dispatch ev s) = lerpStart s.
Proof.
  destruct ev as [cx cy rl rt|button now|button now|key]; cbn.
  - repeat split.
  - intros ->. repeat split.
  - intros ->. repeat split.
  - destruct (String.eqb key "c"); repeat split.
Qed.

Lemma run_keeps_transition (Math_random : nat -> Qc)
    (Math_cos Math_sin : number -> number) (fuel : nat)
    (inputs : list input) :
  forall s calls s' calls',
    Forall (fun i => left_button i = false) inputs ->
    run Math_random Math_cos Math_sin fuel inputs s calls = Some (s', calls') ->
    radius s' = radius s /\ wantedRadius s' = wantedRadius s /\
    lerpStart s' = lerpStart s.
Proof.
  induction inputs as [|i inputs IH]; intros s calls s' calls' Hall Hrun.
  - cbn in Hrun. injection Hrun as <- <-. repeat split.
  - apply Forall_cons in Hall as [Hi Hall].
    destruct i as [ev|now w h]; cbn [run] in Hrun.
    + apply IH in Hrun as (-> & -> & ->); [|exact Hall].
      now apply dispatch_keeps_transition.
    + destruct (drawScene _ _ _ _ _ _ _ _ _) as [[[drawn s1] calls1]|] eqn:E;
        [|discriminate].
      cbn [mbind option_bind] in Hrun.
      apply IH in Hrun as (-> & -> & ->); [|exact Hall].
      eapply drawScene_keeps_transition. exact E.
Qed.

(** C2 (evaluation): from the state [main] builds, after any frames and
    any events other than a press or release of the left button,
    [wantedRadius] and [lerpStart] are still [undefined], [radius] is
    still 50, and the radius a frame computes is [NaN] at every time. *)
Theorem radius_is_NaN_until_first_click (Math_random : nat -> Qc)
    (Math_cos Math_sin : number -> number) (fuel : nat)
    (width height : number) (calls : nat) (inputs : list input)
    (s : state) (calls' : nat) (now : number) :
  Forall (fun i => left_button i = false) inputs ->
  run Math_random Math_cos Math_sin fuel inputs
      (fst (main Math_random width height calls))
      (snd (main Math_random width height calls)) = Some (s, calls') ->
  radius s = lit 50 /\ wantedRadius s = None /\ lerpStart s = None /\
  newRadius s now = NaN.
Proof.
  intros Hall Hrun.
  apply run_keeps_transition in Hrun as (Hr & Hw & Hl); [|exact Hall].
  unfold main in Hr, Hw, Hl.
  destruct (init_loop _ _ _ _ _ _) as [sqs calls0].
  cbn [fst radius wantedRadius lerpStart] in Hr, Hw, Hl.
  repeat split; try assumption.
  unfold newRadius. rewrite Hr, Hw, Hl. cbn [ToNumber].
  destruct now; reflexivity.
Qed.

Lemma radius_is_NaN_until_first_click_witness :
  exists s calls',
    run draws_centre cos_zero_angle sin_zero_angle 1 session_without_click
        session_start 200 = Some (s, calls') /\
    colorMode s = true /\ mouseX s = lit 320 /\
    newRadius s (lit 50) = NaN.
Proof.
  destruct (run draws_centre cos_zero_angle sin_zero_angle 1
              session_without_click session_start 200)
    as [[s calls']|] eqn:E; [|vm_compute in E; discriminate E].
  exists s, calls'. split; [reflexivity|].
  destruct (radius_is_NaN_until_first_click draws_centre cos_zero_angle
              sin_zero_angle 1 (lit 800) (lit 600) 0 session_without_click
              s calls' (lit 50)) as (_ & _ & _ & Hnan).
  - repeat constructor.
  - exact E.
  - vm_compute in E. injection E as <- _.
    split; [reflexivity|]. split; [closed_eq|exact Hnan].
Defined.

(** ** What does hold of the squares

    The scales are 1 in every state reached from [main], and once both
    ends of a transition are numbers a frame stores finite positions. *)

Lemma squares_loop_keeps_unit_scale (Math_random : nat -> Qc)
    (Math_cos Math_sin : number -> number)
    (clientWidth clientHeight : number) (colorMode : bool)
    (spherePoints : list point) (n : nat) (sqs : list square)
    (calls : nat) (out : list command) (sqs' : list square) (calls' : nat) :
  squares_loop Math_random Math_cos Math_sin clientWidth clientHeight
               colorMode spherePoints n 0 sqs calls []
  = Some (out, sqs', calls') ->
  Forall unit_scale sqs -> Forall unit_scale sqs'.
Proof.
  intros H Hall. apply squares_loop_returns in H
    as (new & _ & _ & Hsize & Hout & Hin).
  rewrite Forall_lookup in Hall. apply Forall_lookup. intros j sq' Hj.
  destruct (decide (j < n)) as [Hlt|Hge].
  - destruct (Hin j) as (sq & p & color & Hsq & _ & _ & Hnew); [lia|lia|].
    rewrite Hj in Hnew. injection Hnew as ->. exact (Hall j sq Hsq).
  - rewrite Hout in Hj by lia. exact (Hall j sq' Hj).
Qed.

Lemma run_keeps_unit_scale (Math_random : nat -> Qc)
    (Math_cos Math_sin : number -> number) (fuel : nat)
    (inputs : list input) :
  forall s calls s' calls',
    run Math_random Math_cos Math_sin fuel inputs s calls = Some (s', calls') ->
    Forall unit_scale (squaresData s) -> Forall unit_scale (squaresData s').
Proof.
  induction inputs as [|i inputs IH]; intros s calls s' calls' Hrun Hall.
  - cbn in Hrun. injection Hrun as <- <-. exact Hall.
  - destruct i as [ev|now w h]; cbn [run] in Hrun.
    + apply IH in Hrun; [exact Hrun|].
      destruct ev as [cx cy rl rt|button t|button t|key]; cbn [dispatch].
      * exact Hall.
      * destruct (button =? 0)%Z; exact Hall.
      * destruct (button =? 0)%Z; exact Hall.
      * destruct (String.eqb key "c"); exact Hall.
    + unfold drawScene in Hrun.
      destruct (generatePointsInSphere _ _ _ _ _ _) as [[pts calls1]|];
        [|discriminate].
      cbn [mbind option_bind] in Hrun.
      destruct (squares_loop _ _ _ _ _ _ _ _ _ _ _ _)
        as [[[out sqs'] calls2]|] eqn:Eloop; [|discriminate].
      cbn [mbind option_bind] in Hrun. apply IH in Hrun; [exact Hrun|].
      cbn [squaresData]. eapply squares_loop_keeps_unit_scale; eassumption.
Qed.

Lemma main_unit_scale (Math_random : nat -> Qc) (width height : number)
    (calls : nat) :
  length (squaresData (fst (main Math_random width height calls)))
  = numberOfSquares /\
  Forall unit_scale (squaresData (fst (main Math_random width height calls))).
Proof.
  unfold main.
  pose proof (init_loop_squares Math_random width height numberOfSquares
                [] calls) as Hinit.
  destruct (init_loop _ _ _ _ _ _) as [sqs calls0].
  destruct Hinit as [Hlen Hscale]. cbn [fst squaresData].
  split; [exact Hlen|]. apply Hscale. constructor.
Qed.

Lemma clamp_finite (x : Qc) : exists y, clamp (Fin x) (lit 0) (lit 1) = Fin y.
Proof.
  unfold clamp, lit, Math_max, Math_min.
  destruct (ltb (Fin x) (Fin (Q2Qc 0)));
    [|destruct (ltb (Fin (Q2Qc 1)) (Fin x))]; eauto.
Qed.

Lemma newRadius_finite (s : state) (a b t0 t : Qc) :
  radius s = Fin a -> wantedRadius s = Some (Fin b) ->
  lerpStart s = Some (Fin t0) ->
  exists r, newRadius s (Fin t) = Fin r.
Proof.
  intros Hr Hw Hl. unfold newRadius, lerp. rewrite Hr, Hw, Hl.
  cbn [ToNumber sub neg add mul lit].
  destruct (clamp_finite ((t + - t0) * Q2Qc 0.005)) as (y & ->).
  cbn [mul add]. eauto.
Qed.

Lemma candidate_finite (Math_random : nat -> Qc) (cx cy cz r : Qc)
    (calls : nat) :
  exists x y z,
    candidate Math_random (Point (Fin cx) (Fin cy) (Fin cz)) (Fin r) calls
    = Point (Fin x) (Fin y) (Fin z).
Proof. cbv [candidate p_x p_y p_z add sub mul neg lit]. eauto. Qed.

(** During a transition (after a press or release of the left button),
    with the pointer at a finite place, a frame at a finite time leaves
    every square at a finite position. *)
Lemma frame_positions_finite_in_transition (Math_random : nat -> Qc)
    (Math_cos Math_sin : number -> number) (fuel : nat)
    (clientWidth clientHeight : number) (s : state) (calls : nat)
    (mx my a b t0 t : Qc)
    (drawn : list command) (s' : state) (calls' : nat) :
  mouseX s = Fin mx -> mouseY s = Fin my ->
  radius s = Fin a -> wantedRadius s = Some (Fin b) ->
  lerpStart s = Some (Fin t0) ->
  length (squaresData s) = numberOfSquares ->
  drawScene Math_random Math_cos Math_sin fuel (Fin t) clientWidth
            clientHeight s calls = Some (drawn, s', calls') ->
  Forall (fun sq => is_finite (sq_x sq) = true /\ is_finite (sq_y sq) = true)
         (squaresData s').
Proof.
  intros Hmx Hmy Hr Hw Hl Hlen H. unfold drawScene in H.
  destruct (newRadius_finite s a b t0 t Hr Hw Hl) as (r & Er).
  rewrite Er, Hmx, Hmy in H. unfold generatePointsInSphere, lit in H.
  destruct (generate_loop _ _ _ _ _ _ _) as [[pts calls1]|] eqn:Egen;
    [|discriminate].
  cbn [mbind option_bind] in H.
  destruct (squares_loop _ _ _ _ _ _ _ _ _ _ _ _) as [[[out sqs'] calls2]|]
    eqn:Eloop; [|discriminate].
  cbn [mbind option_bind] in H. injection H as <- <- <-. cbn [squaresData].
  apply generate_loop_returns in Egen as (new & -> & _ & Hcand).
  apply squares_loop_returns in Eloop as (new' & _ & _ & Hsize & _ & Hin).
  apply Forall_lookup. intros j sq' Hj.
  assert (Hlt : j < numberOfSquares)
    by (apply lookup_lt_Some in Hj; lia).
  destruct (Hin j) as (sq & p & color & _ & Hp & _ & Hnew); [lia|lia|].
  rewrite Hj in Hnew. injection Hnew as ->.
  rewrite Forall_lookup in Hcand. cbn [app] in Hp.
  destruct (Hcand j p Hp) as (_ & k & ->).
  destruct (candidate_finite Math_random mx my (Q2Qc 0) r k)
    as (x & y & z & ->).
  split; reflexivity.
Qed.

(** ** Further properties: interpolation *)

Lemma mul_NaN_r (a : number) : (a * NaN)%num = NaN.
Proof. destruct a; reflexivity. Qed.

Lemma add_NaN_r (a : number) : (a + NaN)%num = NaN.
Proof. destruct a; reflexivity. Qed.

(** [clamp] between finite bounds, in terms of the rationals. *)
Lemma clamp_Fin (x lo hi : Qc) :
  exists c : Qc,
    clamp (Fin x) (Fin lo) (Fin hi) = Fin c /\
    ((lo <= hi)%Qc -> (lo <= c)%Qc /\ (c <= hi)%Qc) /\
    ((lo <= x)%Qc -> (x <= hi)%Qc -> c = x) /\
    ((x <= lo)%Qc -> (lo <= hi)%Qc -> c = lo) /\
    ((hi <= x)%Qc -> (lo <= hi)%Qc -> c = hi) /\
    ((hi < lo)%Qc -> c = hi).
Proof.
  unfold clamp, Math_max, Math_min.
  destruct (ltb (Fin x) (Fin lo)) eqn:E1.
  - apply ltb_Fin in E1.
    destruct (ltb (Fin hi) (Fin lo)) eqn:E2.
    + apply ltb_Fin in E2. exists hi. split; [reflexivity|].
      repeat split; intros; try reflexivity;
        try (exfalso; to_Q; lra); apply Qc_is_canon; to_Q; lra.
    + apply ltb_Fin_false in E2. exists lo. split; [reflexivity|].
      repeat split; intros; try reflexivity; try assumption;
        try (exfalso; to_Q; lra); apply Qc_is_canon; to_Q; lra.
  - apply ltb_Fin_false in E1.
    destruct (ltb (Fin hi) (Fin x)) eqn:E2.
    + apply ltb_Fin in E2. exists hi. split; [reflexivity|].
      repeat split; intros; try reflexivity; try assumption;
        try (exfalso; to_Q; lra); apply Qc_is_canon; to_Q; lra.
    + apply ltb_Fin_false in E2. exists x. split; [reflexivity|].
      repeat split; intros; try reflexivity; try assumption;
        try (exfalso; to_Q; lra); apply Qc_is_canon; to_Q; lra.
Qed.

Lemma lerp_Fin (a b alpha : Qc) :
  exists c : Qc,
    clamp (Fin alpha) (lit 0) (lit 1) = Fin c /\
    lerp (Fin a) (Fin b) (Fin alpha) = Fin (a + c * (b - a)) /\
    (0 <= c)%Qc /\ (c <= 1)%Qc /\
    ((alpha <= 0)%Qc -> c = Q2Qc 0) /\
    ((0 <= alpha)%Qc -> (alpha <= 1)%Qc -> c = alpha) /\
    ((1 <= alpha)%Qc -> c = Q2Qc 1).
Proof.
  destruct (clamp_Fin alpha (Q2Qc 0) (Q2Qc 1))
    as (c & Ec & Hin & Hmid & Hlo & Hhi & _).
  assert (H01 : (Q2Qc 0 <= Q2Qc 1)%Qc) by (vm_compute; discriminate).
  exists c. fold (lit 0) in Ec. fold (lit 1) in Ec.
  split; [exact Ec|]. split.
  - unfold lerp. rewrite Ec. reflexivity.
  - destruct (Hin H01) as [H0 H1]. repeat split; auto.
Qed.

(** X3: [clamp] between finite bounds.  [clamp(NaN, min, max)] is [NaN].
    For any other [x], the infinities included, and [min <= max] the
    result is a number of [[min, max]]; a number of that interval is
    returned as it is; and with [max < min] the result is [max]. *)
Theorem clamp_within_bounds (x : number) (q lo hi : Qc) :
  clamp NaN (Fin lo) (Fin hi) = NaN /\
  (x <> NaN -> (lo <= hi)%Qc ->
   exists c : Qc, clamp x (Fin lo) (Fin hi) = Fin c /\
                  (lo <= c)%Qc /\ (c <= hi)%Qc) /\
  ((lo <= q)%Qc -> (q <= hi)%Qc -> clamp (Fin q) (Fin lo) (Fin hi) = Fin q) /\
  (x <> NaN -> (hi < lo)%Qc -> clamp x (Fin lo) (Fin hi) = Fin hi).
Proof.
  split; [reflexivity|].
  assert (Hinf : forall s,
            clamp (Inf s) (Fin lo) (Fin hi)
            = if s then (if ltb (Fin hi) (Fin lo) then Fin hi else Fin lo)
              else Fin hi).
  { intros []; reflexivity. }
  split; [|split].
  - intros Hx Hle. destruct x as [|s|p]; [congruence| |].
    + rewrite Hinf. destruct s.
      * destruct (ltb (Fin hi) (Fin lo)) eqn:E.
        -- apply ltb_Fin in E. exfalso. exact (Qcle_not_lt _ _ Hle E).
        -- exists lo. split; [reflexivity|]. split; [apply Qcle_refl|exact Hle].
      * exists hi. split; [reflexivity|]. split; [exact Hle|apply Qcle_refl].
    + destruct (clamp_Fin p lo hi) as (c & E & Hin & _).
      exists c. split; [exact E|]. exact (Hin Hle).
  - intros H1 H2. destruct (clamp_Fin q lo hi) as (c & E & _ & Hmid & _).
    rewrite E, (Hmid H1 H2). reflexivity.
  - intros Hx Hlt. destruct x as [|s|p]; [congruence| |].
    + rewrite Hinf. destruct s; [|reflexivity].
      apply ltb_Fin in Hlt. rewrite Hlt. reflexivity.
    + destruct (clamp_Fin p lo hi) as (c & E & _ & _ & _ & _ & Hrev).
      rewrite E, (Hrev Hlt). reflexivity.
Qed.

Lemma clamp_within_bounds_witness :
  (exists c : Qc, clamp (Inf false) (lit 0) (lit 1) = Fin c /\
                  (Q2Qc 0 <= c)%Qc /\ (c <= Q2Qc 1)%Qc) /\
  clamp (lit 0.25) (lit 0) (lit 1) = lit 0.25 /\
  clamp (lit 7) (lit 3) (lit 2) = lit 2.
Proof.
  destruct (clamp_within_bounds (Inf false) (Q2Qc 0.25) (Q2Qc 0) (Q2Qc 1))
    as (_ & H1 & H2 & _).
  destruct (clamp_within_bounds (lit 7) (Q2Qc 0) (Q2Qc 3) (Q2Qc 2))
    as (_ & _ & _ & H3).
  split; [|split].
  - apply H1; [discriminate|vm_compute; discriminate].
  - apply H2; vm_compute; discriminate.
  - apply H3; [discriminate|reflexivity].
Defined.

(** X4: [lerp] returns [NaN] as soon as one of its three arguments is
    [NaN]. *)
Theorem lerp_NaN_propagates (a b alpha : number) :
  lerp NaN b alpha = NaN /\ lerp a NaN alpha = NaN /\ lerp a b NaN = NaN.
Proof.
  unfold lerp. split; [reflexivity|]. split.
  - change (NaN - a)%num with NaN. rewrite mul_NaN_r. apply add_NaN_r.
  - change (clamp NaN (lit 0) (lit 1)) with NaN.
    change (NaN * (b - a))%num with NaN. apply add_NaN_r.
Qed.

(** ** Further properties: matrices *)

Lemma mat3_Fin_eq (a b c d e f g h i a' b' c' d' e' f' g' h' i' : Qc) :
  a = a' -> b = b' -> c = c' -> d = d' -> e = e' -> f = f' ->
  g = g' -> h = h' -> i = i' ->
  Mat3 (Fin a) (Fin b) (Fin c) (Fin d) (Fin e) (Fin f) (Fin g) (Fin h) (Fin i)
  = Mat3 (Fin a') (Fin b') (Fin c') (Fin d') (Fin e') (Fin f')
         (Fin g') (Fin h') (Fin i').
Proof. intros -> -> -> -> -> -> -> -> ->. reflexivity. Qed.

(** X5: [scaling(1, 1)] is the identity of [multiply], on either side,
    for a matrix of finite entries. *)
Theorem multiply_identity (m : mat3) :
  finite_mat3 m ->
  m3.multiply m (m3.scaling (lit 1) (lit 1)) = m /\
  m3.multiply (m3.scaling (lit 1) (lit 1)) m = m.
Proof.
  intros (a & b & c & d & e & f & g & h & i & ->).
  cbv [m3.multiply m3.scaling m00 m01 m02 m10 m11 m12 m20 m21 m22
       add mul lit].
  split; apply mat3_Fin_eq; apply Qc_is_canon; to_Q; ring.
Qed.

Lemma multiply_identity_witness :
  m3.multiply (m3.translation (lit 5) (lit 7)) (m3.scaling (lit 1) (lit 1))
  = m3.translation (lit 5) (lit 7).
Proof.
  apply (multiply_identity (m3.translation (lit 5) (lit 7))).
  apply finite_translation.
Defined.

(** X7: two translations multiply to the translation by the sum of
    their offsets, and two scalings to the scaling by the product of
    their factors. *)
Theorem translations_and_scalings_compose (a b c d : Qc) :
  m3.multiply (m3.translation (Fin a) (Fin b)) (m3.translation (Fin c) (Fin d))
  = m3.translation (Fin (a + c)) (Fin (b + d)) /\
  m3.multiply (m3.scaling (Fin a) (Fin b)) (m3.scaling (Fin c) (Fin d))
  = m3.scaling (Fin (a * c)) (Fin (b * d)).
Proof.
  cbv [m3.multiply m3.translation m3.scaling m00 m01 m02 m10 m11 m12
       m20 m21 m22 add mul lit].
  split; apply mat3_Fin_eq; apply Qc_is_canon; to_Q; ring.
Qed.

(** X8: [projection] does not reject a viewport of width or height 0:
    the entry [2 / width] or [-2 / height] is then infinite, and no
    finite pixel is sent to a finite clip-space coordinate on that
    axis. *)
Theorem projection_of_empty_viewport (w h x y : Qc) :
  m00 (m3.projection (lit 0) (Fin h)) = Inf false /\
  m11 (m3.projection (Fin w) (lit 0)) = Inf true /\
  is_finite
    (fst (fst (u_matrix_times (m3.projection (lit 0) (Fin h))
                              (Fin x, Fin y, lit 1)))) = false /\
  is_finite
    (snd (fst (u_matrix_times (m3.projection (Fin w) (lit 0))
                              (Fin x, Fin y, lit 1)))) = false.
Proof.
  split; [reflexivity|]. split; [reflexivity|].
  unfold m3.projection.
  change (lit 2 / lit 0)%num with (Inf false).
  change (lit (-2) / lit 0)%num with (Inf true).
  cbv [u_matrix_times m00 m01 m02 m10 m11 m12 m20 m21 m22 fst snd].
  split.
  - cbn [mul]. destruct (is_zero x); [reflexivity|].
    destruct (lit 0 * Fin y)%num eqn:E; [reflexivity| |].
    + cbn in E. discriminate E.
    + reflexivity.
  - cbn [mul add lit]. destruct (is_zero y); reflexivity.
Qed.

(** ** Further properties: handlers and sessions *)

(** X10: the key [c] toggles [colorMode], so pressing it twice restores
    the state; any other key, an upper-case [C] included, changes
    nothing. *)
Theorem key_c_toggles_colour (s : state) (key : string) :
  colorMode (dispatch (keydown "c") s) = negb (colorMode s) /\
  dispatch (keydown "c") (dispatch (keydown "c") s) = s /\
  (key <> "c" -> dispatch (keydown key) s = s).
Proof.
  split; [reflexivity|]. split.
  - destruct s as [mx my r w l cm sqs]. cbn. now rewrite negb_involutive.
  - intros Hk. cbn [dispatch]. apply String.eqb_neq in Hk. now rewrite Hk.
Qed.

Lemma key_c_toggles_colour_witness :
  dispatch (keydown "C") session_pressed = session_pressed.
Proof.
  apply (key_c_toggles_colour session_pressed "C"). discriminate.
Defined.

Lemma squares_loop_keeps_shape (Math_random : nat -> Qc)
    (Math_cos Math_sin : number -> number)
    (clientWidth clientHeight : number) (colorMode : bool)
    (spherePoints : list point) (n : nat) (sqs : list square)
    (calls : nat) (out : list command) (sqs' : list square) (calls' : nat) :
  squares_loop Math_random Math_cos Math_sin clientWidth clientHeight
               colorMode spherePoints n 0 sqs calls []
  = Some (out, sqs', calls') ->
  length sqs' = length sqs /\
  (Forall initial_shape sqs -> Forall initial_shape sqs').
Proof.
  intros H. apply squares_loop_returns in H
    as (new & _ & _ & Hsize & Hout & Hin).
  split; [exact Hsize|]. intros Hall.
  rewrite Forall_lookup in Hall. apply Forall_lookup. intros j sq' Hj.
  destruct (decide (j < n)) as [Hlt|Hge].
  - destruct (Hin j) as (sq & p & color & Hsq & _ & _ & Hnew); [lia|lia|].
    rewrite Hj in Hnew. injection Hnew as ->. exact (Hall j sq Hsq).
  - rewrite Hout in Hj by lia. exact (Hall j sq' Hj).
Qed.

Lemma run_keeps_shape (Math_random : nat -> Qc)
    (Math_cos Math_sin : number -> number) (fuel : nat)
    (inputs : list input) :
  forall s calls s' calls',
    run Math_random Math_cos Math_sin fuel inputs s calls = Some (s', calls') ->
    length (squaresData s') = length (squaresData s) /\
    (Forall initial_shape (squaresData s) ->
     Forall initial_shape (squaresData s')).
Proof.
  induction inputs as [|i inputs IH]; intros s calls s' calls' Hrun.
  - cbn in Hrun. injection Hrun as <- <-. auto.
  - destruct i as [ev|now w h]; cbn [run] in Hrun.
    + apply IH in Hrun as [Hlen Hall].
      assert (E : squaresData (dispatch ev s) = squaresData s).
      { destruct ev as [cx cy rl rt|button t|button t|key]; cbn [dispatch].
        - reflexivity.
        - destruct (button =? 0)%Z; reflexivity.
        - destruct (button =? 0)%Z; reflexivity.
        - destruct (String.eqb key "c"); reflexivity. }
      rewrite E in Hlen, Hall. auto.
    + unfold drawScene in Hrun.
      destruct (generatePointsInSphere _ _ _ _ _ _) as [[pts calls1]|];
        [|discriminate].
      cbn [mbind option_bind] in Hrun.
      destruct (squares_loop _ _ _ _ _ _ _ _ _ _ _ _)
        as [[[out sqs'] calls2]|] eqn:Eloop; [|discriminate].
      cbn [mbind option_bind] in Hrun. apply IH in Hrun as [Hlen Hall].
      cbn [squaresData] in Hlen, Hall.
      apply squares_loop_keeps_shape in Eloop as [Hsize Hshape].
      split; [lia|auto].
Qed.

Lemma init_loop_shape (Math_random : nat -> Qc) (width height : number)
    (n : nat) :
  forall (acc : list square) calls,
    Forall initial_shape acc ->
    Forall initial_shape
           (fst (init_loop Math_random width height n acc calls)) /\
    snd (init_loop Math_random width height n acc calls) = calls + 2 * n.
Proof.
  induction n as [|n IH]; intros acc calls Hacc; cbn [init_loop].
  - split; [exact Hacc|cbn; lia].
  - match goal with
    | |- context [init_loop _ _ _ _ ?a ?c] =>
        destruct (IH a c) as [Hall Hcalls]
    end.
    + apply Forall_app. split; [exact Hacc|].
      constructor; [repeat split|constructor].
    + split; [exact Hall|]. rewrite Hcalls. lia.
Qed.

(** X11: in every state reached from [main], whatever the events and
    frames, there are exactly 100 squares, each with rotation 0 and
    scales 1: only the positions ever change. *)
Theorem reachable_squares_keep_shape (Math_random : nat -> Qc)
    (Math_cos Math_sin : number -> number) (fuel : nat)
    (width height : number) (calls : nat) (inputs : list input)
    (s : state) (calls' : nat) :
  run Math_random Math_cos Math_sin fuel inputs
      (fst (main Math_random width height calls))
      (snd (main Math_random width height calls)) = Some (s, calls') ->
  length (squaresData s) = numberOfSquares /\
  Forall (fun sq => sq_rotationInRadians sq = lit 0 /\
                    sq_scaleX sq = lit 1 /\ sq_scaleY sq = lit 1)
         (squaresData s).
Proof.
  intros Hrun. apply run_keeps_shape in Hrun as [Hlen Hall].
  destruct (main_unit_scale Math_random width height calls) as [Hn _].
  split; [lia|]. apply Hall. unfold main.
  pose proof (init_loop_shape Math_random width height numberOfSquares
                [] calls (Forall_nil_2 _)) as [Hinit _].
  destruct (init_loop _ _ _ _ _ _) as [sqs calls0]. exact Hinit.
Qed.

Lemma reachable_squares_keep_shape_witness :
  exists s calls',
    run draws_centre cos_zero_angle sin_zero_angle 1 session_without_click
        session_start 200 = Some (s, calls') /\
    length (squaresData s) = 100.
Proof.
  destruct (run draws_centre cos_zero_angle sin_zero_angle 1
              session_without_click session_start 200)
    as [[s calls']|] eqn:E; [|vm_compute in E; discriminate E].
  exists s, calls'. split; [reflexivity|].
  apply (reachable_squares_keep_shape draws_centre cos_zero_angle
           sin_zero_angle 1 (lit 800) (lit 600) 0 session_without_click
           s calls' E).
Defined.

(** The radius of a state in transition, at a finite time. *)
Lemma in_transition_radius (s : state) (now : Qc) :
  in_transition s ->
  exists r : Qc,
    newRadius s (Fin now) = Fin r /\
    (Q2Qc 50 <= r)%Qc /\ (r <= Q2Qc 200)%Qc.
Proof.
  intros [Hrw (t0 & Hl)]. unfold newRadius. rewrite Hl. cbn [ToNumber].
  replace ((Fin now - Fin t0) * lit 0.005)%num
    with (Fin ((now - t0) * Q2Qc 0.005)) by reflexivity.
  destruct Hrw as [[-> ->]|[-> ->]]; cbn [ToNumber]; unfold lit.
  - destruct (lerp_Fin (Q2Qc 50) (Q2Qc 200) ((now - t0) * Q2Qc 0.005))
      as (c & _ & E & H0 & H1 & _).
    eexists. split; [exact E|]. to_Q. split; lra.
  - destruct (lerp_Fin (Q2Qc 200) (Q2Qc 50) ((now - t0) * Q2Qc 0.005))
      as (c & _ & E & H0 & H1 & _).
    eexists. split; [exact E|]. to_Q. split; lra.
Qed.

Lemma dispatch_keeps_in_transition (ev : event) (s : state) :
  timed (Deliver ev) = true -> in_transition s ->
  in_transition (dispatch ev s).
Proof.
  intros Ht Hs.
  destruct ev as [cx cy rl rt|button t|button t|key]; cbn [dispatch].
  - exact Hs.
  - destruct (button =? 0)%Z; [|exact Hs].
    destruct t as [| |q]; try discriminate.
    split; [left; split; reflexivity|]. exists q. reflexivity.
  - destruct (button =? 0)%Z; [|exact Hs].
    destruct t as [| |q]; try discriminate.
    split; [right; split; reflexivity|]. exists q. reflexivity.
  - destruct (String.eqb key "c"); exact Hs.
Qed.

Lemma run_keeps_in_transition (Math_random : nat -> Qc)
    (Math_cos Math_sin : number -> number) (fuel : nat)
    (inputs : list input) :
  forall s calls s' calls',
    Forall (fun i => timed i = true) inputs -> in_transition s ->
    run Math_random Math_cos Math_sin fuel inputs s calls = Some (s', calls') ->
    in_transition s'.
Proof.
  induction inputs as [|i inputs IH]; intros s calls s' calls' Hall Hs Hrun.
  - cbn in Hrun. injection Hrun as <- <-. exact Hs.
  - apply Forall_cons in Hall as [Hi Hall].
    destruct i as [ev|now w h]; cbn [run] in Hrun.
    + eapply IH; [exact Hall| |exact Hrun].
      now apply dispatch_keeps_in_transition.
    + destruct (drawScene _ _ _ _ _ _ _ _ _) as [[[drawn s1] calls1]|] eqn:E;
        [|discriminate].
      cbn [mbind option_bind] in Hrun.
      eapply IH; [exact Hall| |exact Hrun].
      apply drawScene_keeps_transition in E as (Hr & Hw & Hl).
      unfold in_transition. rewrite Hr, Hw, Hl. exact Hs.
Qed.

(** X12: once the left button has been pressed or released at a finite
    time, the radius of every later frame is a number between 50 and
    200, whatever events and frames follow. *)
Theorem radius_in_range_after_click (Math_random : nat -> Qc)
    (Math_cos Math_sin : number -> number) (fuel : nat)
    (s0 : state) (press : bool) (t : Qc) (inputs : list input)
    (calls : nat) (s : state) (calls' : nat) (now : Qc) :
  let ev := if press then mousedown 0 (Fin t) else mouseup 0 (Fin t) in
  Forall (fun i => timed i = true) inputs ->
  run Math_random Math_cos Math_sin fuel inputs (dispatch ev s0) calls
  = Some (s, calls') ->
  exists r : Qc,
    newRadius s (Fin now) = Fin r /\
    (Q2Qc 50 <= r)%Qc /\ (r <= Q2Qc 200)%Qc.
Proof.
  intros ev Hall Hrun. apply in_transition_radius.
  eapply run_keeps_in_transition; [exact Hall| |exact Hrun].
  unfold ev. destruct press; cbn [dispatch Z.eqb].
  - split; [left; split; reflexivity|]. exists t. reflexivity.
  - split; [right; split; reflexivity|]. exists t. reflexivity.
Qed.

Lemma radius_in_range_after_click_witness :
  exists s calls' r,
    run draws_centre cos_zero_angle sin_zero_angle 1 session_without_click
        (dispatch (mousedown 0 (lit 5)) session_start) 200
    = Some (s, calls') /\
    newRadius s (lit 40) = Fin r /\
    (Q2Qc 50 <= r)%Qc /\ (r <= Q2Qc 200)%Qc.
Proof.
  destruct (run draws_centre cos_zero_angle sin_zero_angle 1
              session_without_click
              (dispatch (mousedown 0 (lit 5)) session_start) 200)
    as [[s calls']|] eqn:E; [|vm_compute in E; discriminate E].
  destruct (radius_in_range_after_click draws_centre cos_zero_angle
              sin_zero_angle 1 session_start true (Q2Qc 5)
              session_without_click 200 s calls' (Q2Qc 40))
    as (r & Hr & Hlo & Hhi).
  - repeat constructor.
  - exact E.
  - exists s, calls', r. split; [reflexivity|]. split; [exact Hr|].
    split; assumption.
Defined.

(** X13: after a release of the left button at [t0] the radius goes
    down from 200 to 50: it is 200 at [t0] and before, 125 after 100 ms
    and 50 from 200 ms on; in between it never increases with time and
    stays within [[50, 200]]. *)
Theorem radius_after_release (s : state) (t0 : Qc) :
  let released := dispatch (mouseup 0 (Fin t0)) s in
  (forall e : Qc, (e <= 0)%Qc ->
     newRadius released (Fin (t0 + e)) = lit 200) /\
  newRadius released (Fin (t0 + Q2Qc 100)) = lit 125 /\
  (forall e : Qc, (Q2Qc 200 <= e)%Qc ->
     newRadius released (Fin (t0 + e)) = lit 50) /\
  (forall e1 e2 : Qc, (e1 <= e2)%Qc ->
     exists r1 r2 : Qc,
       newRadius released (Fin (t0 + e1)) = Fin r1 /\
       newRadius released (Fin (t0 + e2)) = Fin r2 /\
       (Q2Qc 50 <= r2)%Qc /\ (r2 <= r1)%Qc /\ (r1 <= Q2Qc 200)%Qc).
Proof.
  cbn zeta.
  assert (A : forall e : Qc,
             newRadius (dispatch (mouseup 0 (Fin t0)) s) (Fin (t0 + e))
             = lerp (Fin (Q2Qc 200)) (Fin (Q2Qc 50))
                    (Fin (e * Q2Qc 0.005))).
  { intros e. unfold newRadius.
    cbn [dispatch Z.eqb radius wantedRadius lerpStart ToNumber].
    replace (Fin (t0 + e) - Fin t0)%num with (Fin e)
      by (apply Fin_eq; to_Q; ring).
    reflexivity. }
  split; [|split; [|split]].
  - intros e He. rewrite A.
    destruct (lerp_Fin (Q2Qc 200) (Q2Qc 50) (e * Q2Qc 0.005))
      as (c & _ & E & _ & _ & Hlo & _ & _).
    rewrite E, Hlo by (to_Q; lra). apply Fin_eq. to_Q. ring.
  - rewrite A.
    destruct (lerp_Fin (Q2Qc 200) (Q2Qc 50) (Q2Qc 100 * Q2Qc 0.005))
      as (c & _ & E & _ & _ & _ & Hmid & _).
    rewrite E, Hmid by (vm_compute; discriminate). closed_eq.
  - intros e He. rewrite A.
    destruct (lerp_Fin (Q2Qc 200) (Q2Qc 50) (e * Q2Qc 0.005))
      as (c & _ & E & _ & _ & _ & _ & Hhi).
    rewrite E, Hhi by (to_Q; lra). apply Fin_eq. to_Q. ring.
  - intros e1 e2 H12. rewrite !A.
    destruct (lerp_Fin (Q2Qc 200) (Q2Qc 50) (e1 * Q2Qc 0.005))
      as (c1 & _ & E1 & H10 & H11 & Hlo1 & Hmid1 & Hhi1).
    destruct (lerp_Fin (Q2Qc 200) (Q2Qc 50) (e2 * Q2Qc 0.005))
      as (c2 & _ & E2 & H20 & H21 & Hlo2 & Hmid2 & Hhi2).
    assert (Hc : (c1 <= c2)%Qc).
    { destruct (Qclt_le_dec (e1 * Q2Qc 0.005) 0) as [Ha|Ha].
      - rewrite (Hlo1 (Qclt_le_weak _ _ Ha)). exact H20.
      - destruct (Qclt_le_dec 1 (e2 * Q2Qc 0.005)) as [Hb|Hb].
        + rewrite (Hhi2 (Qclt_le_weak _ _ Hb)). exact H11.
        + assert (H12' : (e1 * Q2Qc 0.005 <= e2 * Q2Qc 0.005)%Qc)
            by (to_Q; lra).
          rewrite (Hmid1 Ha (Qcle_trans _ _ _ H12' Hb)).
          rewrite (Hmid2 (Qcle_trans _ _ _ Ha H12') Hb). exact H12'. }
    exists (Q2Qc 200 + c1 * (Q2Qc 50 - Q2Qc 200))%Qc,
           (Q2Qc 200 + c2 * (Q2Qc 50 - Q2Qc 200))%Qc.
    split; [exact E1|]. split; [exact E2|].
    to_Q. repeat split; lra.
Qed.

Lemma radius_after_release_witness :
  newRadius session_released (lit 1000) = lit 200 /\
  newRadius session_released (lit 1100) = lit 125 /\
  newRadius session_released (lit 1300) = lit 50.
Proof.
  destruct (radius_after_release session_first_press (Q2Qc 1000))
    as (Hlo & Hmid & Hhi & _).
  split; [|split].
  - transitivity (newRadius session_released (Fin (Q2Qc 1000 + Q2Qc 0)));
      [f_equal; closed_eq|].
    apply Hlo. vm_compute. discriminate.
  - transitivity (newRadius session_released (Fin (Q2Qc 1000 + Q2Qc 100)));
      [f_equal; closed_eq|].
    exact Hmid.
  - transitivity (newRadius session_released (Fin (Q2Qc 1000 + Q2Qc 300)));
      [f_equal; closed_eq|].
    apply Hhi. vm_compute. discriminate.
Defined.

(** ** Further properties: the sampler *)

Lemma sample_draws (Math_random : nat -> Qc) (fuel : nat) (center : point)
    (r : number) :
  forall calls p calls',
    sample Math_random fuel center r calls = Some (p, calls') ->
    exists j, j < fuel /\ calls' = calls + 3 * (j + 1).
Proof.
  induction fuel as [|fuel IH]; intros calls p calls' H; [discriminate|].
  cbn [sample] in H.
  destruct (rejected (candidate Math_random center r calls) center r).
  - apply IH in H as (j & Hj & ->). exists (S j). split; lia.
  - injection H as _ <-. exists 0. split; lia.
Qed.

Lemma generate_loop_draws (Math_random : nat -> Qc) (fuel : nat)
    (center : point) (r : number) (n : nat) :
  forall points calls out calls',
    generate_loop Math_random fuel center r n points calls
    = Some (out, calls') ->
    exists m, calls' = calls + 3 * m /\ n <= m /\ m <= fuel * n.
Proof.
  induction n as [|n IH]; intros points calls out calls' H; cbn in H.
  - injection H as _ <-. exists 0. repeat split; lia.
  - destruct (sample Math_random fuel center r calls) as [[p c1]|] eqn:E;
      [|discriminate].
    cbn in H. apply IH in H as (m & -> & Hlo & Hhi).
    apply sample_draws in E as (j & Hj & ->).
    exists (j + 1 + m). repeat split; nia.
Qed.

(** X14: [generatePointsInSphere] calls [Math.random] three times per
    candidate: when it returns [k] points it has made [3 m] calls, with
    [m >= k] candidates tried (and at most [fuel] per point). *)
Theorem sampler_draws_in_triples (Math_random : nat -> Qc) (fuel : nat)
    (c : point) (r : number) (k calls : nat) (points : list point)
    (calls' : nat) :
  generatePointsInSphere Math_random fuel c r k calls
  = Some (points, calls') ->
  exists m, calls' = calls + 3 * m /\ k <= m /\ m <= fuel * k.
Proof.
  intros H. unfold generatePointsInSphere in H.
  eapply generate_loop_draws. exact H.
Qed.

Lemma sampler_draws_in_triples_witness :
  exists points m,
    generatePointsInSphere draws_corner_then_centre 2
      (Point (lit 400) (lit 300) (lit 0)) (lit 50) 3 0
    = Some (points, 0 + 3 * m) /\ 3 <= m /\ m <= 2 * 3.
Proof.
  destruct (generatePointsInSphere draws_corner_then_centre 2
              (Point (lit 400) (lit 300) (lit 0)) (lit 50) 3 0)
    as [[points calls']|] eqn:E; [|vm_compute in E; discriminate E].
  destruct (sampler_draws_in_triples _ _ _ _ _ _ _ _ E) as (m & -> & H).
  exists points, m. split; [reflexivity|exact H].
Defined.

Lemma ltb_NaN_r (a : number) : ltb a NaN = false.
Proof. destruct a; reflexivity. Qed.

Lemma sub_NaN_r (a : number) : (a - NaN)%num = NaN.
Proof. destruct a; reflexivity. Qed.

(** With a [NaN] in the centre or as the radius the loop condition is
    false for every candidate. *)
Lemma NaN_is_never_rejected (p c : point) (r : number) :
  p_x c = NaN \/ p_y c = NaN \/ p_z c = NaN \/ r = NaN ->
  rejected p c r = false.
Proof.
  unfold rejected, gtb, distance2.
  intros [H|[H|[H|H]]]; rewrite H.
  - rewrite sub_NaN_r. cbn [pow2 mul add]. apply ltb_NaN_r.
  - rewrite sub_NaN_r. cbn [pow2 mul]. rewrite add_NaN_r. cbn [add].
    apply ltb_NaN_r.
  - rewrite sub_NaN_r. cbn [pow2 mul]. rewrite add_NaN_r.
    apply ltb_NaN_r.
  - reflexivity.
Qed.

Lemma generate_loop_all_accepted (Math_random : nat -> Qc) (fuel : nat)
    (center : point) (r : number) :
  (forall p, rejected p center r = false) ->
  forall n points calls,
    generate_loop Math_random (S fuel) center r n points calls
    = Some (points
            ++ map (fun i => candidate Math_random center r (calls + 3 * i))
                   (seq 0 n),
            calls + 3 * n).
Proof.
  intros Hacc n. induction n as [|n IH]; intros points calls;
    cbn [generate_loop].
  - cbn. rewrite app_nil_r. do 2 f_equal. lia.
  - cbn [sample]. rewrite Hacc. cbn [mbind option_bind]. rewrite IH.
    apply f_equal. apply (f_equal2 pair); [|lia].
    rewrite <- app_assoc. apply f_equal. cbn [app seq map].
    replace (calls + 3 * 0) with calls by lia. apply f_equal.
    rewrite <- seq_shift, map_map. apply map_ext. intros i.
    apply f_equal. lia.
Qed.

(** X15: the sampler does not check its arguments: with a [NaN] in the
    centre or as the radius the first candidate of every point is
    returned as it is, after exactly three draws per point. *)
Theorem sampler_returns_unchecked_on_NaN (Math_random : nat -> Qc)
    (fuel : nat) (c : point) (r : number) (k calls : nat) :
  p_x c = NaN \/ p_y c = NaN \/ p_z c = NaN \/ r = NaN ->
  generatePointsInSphere Math_random (S fuel) c r k calls
  = Some (map (fun i => candidate Math_random c r (calls + 3 * i)) (seq 0 k),
          calls + 3 * k).
Proof.
  intros H. unfold generatePointsInSphere.
  rewrite generate_loop_all_accepted; [reflexivity|].
  intros p. now apply NaN_is_never_rejected.
Qed.

Lemma sampler_returns_unchecked_on_NaN_witness :
  generatePointsInSphere draws_corner 1 (Point (lit 400) NaN (lit 0))
                         (lit 50) 2 0
  = Some ([Point (lit 445) NaN (lit 45); Point (lit 445) NaN (lit 45)], 6).
Proof.
  rewrite (sampler_returns_unchecked_on_NaN draws_corner 0
             (Point (lit 400) NaN (lit 0)) (lit 50) 2 0)
    by (right; left; reflexivity).
  vm_compute. closed_eq.
Defined.

(** X16: the rejection loop has no bound of its own: as long as every
    candidate fails the test the loop goes on drawing, and no point is
    returned whatever the number of iterations allowed. *)
Theorem sampler_starves_while_rejected (Math_random : nat -> Qc)
    (fuel : nat) (c : point) (r : number) (k calls : nat) :
  (forall j, rejected (candidate Math_random c r (calls + 3 * j)) c r = true) ->
  sample Math_random fuel c r calls = None /\
  generatePointsInSphere Math_random fuel c r (S k) calls = None.
Proof.
  intros Hrej.
  assert (A : sample Math_random fuel c r calls = None).
  { revert calls Hrej. induction fuel as [|fuel IH]; intros calls Hrej;
      cbn [sample]; [reflexivity|].
    pose proof (Hrej 0) as H0.
    replace (calls + 3 * 0) with calls in H0 by lia. rewrite H0.
    apply IH. intros j.
    replace (calls + 3 + 3 * j) with (calls + 3 * S j) by lia. apply Hrej. }
  split; [exact A|].
  unfold generatePointsInSphere. cbn [generate_loop]. rewrite A. reflexivity.
Qed.

Lemma sampler_starves_while_rejected_witness :
  candidate draws_far (Point (lit 320) (lit 240) (lit 0)) (lit 50) 0
  = Point (lit 357.5) (lit 277.5) (lit 37.5) /\
  generatePointsInSphere draws_far 1000
    (Point (lit 320) (lit 240) (lit 0)) (lit 50) 1 0 = None.
Proof.
  split; [vm_compute; closed_eq|].
  apply (sampler_starves_while_rejected draws_far 1000
           (Point (lit 320) (lit 240) (lit 0)) (lit 50) 0 0).
  intros j. vm_compute. reflexivity.
Defined.

(** ** Further properties: start-up and frames *)

Lemma init_loop_rectangle (Math_random : nat -> Qc) (w h : Qc) (n : nat) :
  unit_draws Math_random -> (0 <= w)%Qc -> (0 <= h)%Qc ->
  forall (acc : list square) calls,
    Forall (fun sq => exists x y : Qc,
                sq_x sq = Fin x /\ sq_y sq = Fin y /\
                (0 <= x)%Qc /\ (x <= w * Q2Qc 0.5)%Qc /\
                (0 <= y)%Qc /\ (y <= h * Q2Qc 0.5)%Qc) acc ->
    Forall (fun sq => exists x y : Qc,
                sq_x sq = Fin x /\ sq_y sq = Fin y /\
                (0 <= x)%Qc /\ (x <= w * Q2Qc 0.5)%Qc /\
                (0 <= y)%Qc /\ (y <= h * Q2Qc 0.5)%Qc)
           (fst (init_loop Math_random (Fin w) (Fin h) n acc calls)).
Proof.
  intros Hu Hw Hh. induction n as [|n IH]; intros acc calls Hacc;
    cbn [init_loop]; [exact Hacc|].
  apply IH. apply Forall_app. split; [exact Hacc|].
  constructor; [|constructor].
  destruct (Hu calls) as [H0 H1]. destruct (Hu (calls + 1)) as [H2 H3].
  cbn [sq_x sq_y]. unfold maxOffset, lit. cbn [mul].
  set (u1 := Math_random calls) in *.
  set (u2 := Math_random (calls + 1)) in *. clearbody u1 u2.
  exists (w * u1 * Q2Qc 0.5)%Qc, (h * u2 * Q2Qc 0.5)%Qc.
  split; [reflexivity|]. split; [reflexivity|].
  to_Q. repeat split; nra.
Qed.

(** X17: [main] makes 200 calls of [Math.random] and builds 100 squares;
    on a canvas of finite size, with draws in [[0, 1)], every square
    starts inside the top-left quarter of the canvas,
    [[0, width / 2] x [0, height / 2]]. *)
Theorem main_builds_squares_in_quarter (Math_random : nat -> Qc)
    (w h : Qc) (calls : nat) :
  let start := main Math_random (Fin w) (Fin h) calls in
  snd start = calls + 200 /\
  length (squaresData (fst start)) = 100 /\
  (unit_draws Math_random -> (0 <= w)%Qc -> (0 <= h)%Qc ->
   Forall (fun sq => exists x y : Qc,
               sq_x sq = Fin x /\ sq_y sq = Fin y /\
               (0 <= x)%Qc /\ (x <= w * Q2Qc 0.5)%Qc /\
               (0 <= y)%Qc /\ (y <= h * Q2Qc 0.5)%Qc)
          (squaresData (fst start))).
Proof.
  cbn zeta.
  destruct (main_unit_scale Math_random (Fin w) (Fin h) calls) as [Hlen _].
  pose proof (init_loop_shape Math_random (Fin w) (Fin h) numberOfSquares
                [] calls (Forall_nil_2 _)) as [_ Hcalls].
  split; [|split; [exact Hlen|]].
  - unfold main. destruct (init_loop _ _ _ _ _ _) as [sqs calls0].
    cbn [snd] in *. rewrite Hcalls. reflexivity.
  - intros Hu Hw Hh.
    pose proof (init_loop_rectangle Math_random w h numberOfSquares
                  Hu Hw Hh [] calls (Forall_nil_2 _)) as Hrect.
    unfold main. destruct (init_loop _ _ _ _ _ _) as [sqs calls0].
    exact Hrect.
Qed.

Lemma main_builds_squares_in_quarter_witness :
  Forall (fun sq => exists x y : Qc,
              sq_x sq = Fin x /\ sq_y sq = Fin y /\
              (0 <= x)%Qc /\ (x <= Q2Qc 800 * Q2Qc 0.5)%Qc /\
              (0 <= y)%Qc /\ (y <= Q2Qc 600 * Q2Qc 0.5)%Qc)
         (squaresData session_start).
Proof.
  apply (main_builds_squares_in_quarter draws_centre (Q2Qc 800) (Q2Qc 600) 0).
  - intros n. split; vm_compute; [discriminate|reflexivity].
  - vm_compute. discriminate.
  - vm_compute. discriminate.
Defined.

(** The commands of the drawing loop, and the draws behind each colour. *)
Lemma squares_loop_colors (Math_random : nat -> Qc)
    (Math_cos Math_sin : number -> number)
    (clientWidth clientHeight : number) (colorMode : bool)
    (spherePoints : list point) (n : nat) :
  forall i (sqs : list square) calls drawn out (sqs' : list square) calls',
    squares_loop Math_random Math_cos Math_sin clientWidth clientHeight
                 colorMode spherePoints n i sqs calls drawn
    = Some (out, sqs', calls') ->
    exists new : list command,
      out = drawn ++ new /\ length new = n /\
      calls' = calls + (if colorMode then 3 * n else 0) /\
      forall j c, new !! j = Some c ->
        length (cmd_vertices c) = 12 /\
        cmd_color c
        = fst (square_color Math_random colorMode
                            (calls + (if colorMode then 3 * j else 0))).
Proof.
  induction n as [|n IH]; intros i sqs calls drawn out sqs' calls' H.
  - cbn in H. injection H as <- <- <-. exists [].
    rewrite app_nil_r. split; [reflexivity|]. split; [reflexivity|].
    split; [destruct colorMode; lia|]. intros j c Hj. discriminate Hj.
  - cbn [squares_loop] in H.
    destruct (sqs !! i) as [sq|]; [|discriminate].
    destruct (spherePoints !! i) as [p|]; [|discriminate].
    cbn [mbind option_bind] in H.
    destruct (square_color Math_random colorMode calls)
      as [color calls1] eqn:Ecol.
    apply IH in H as (new & -> & Hlen & -> & Hall).
    eexists (_ :: new). rewrite <- app_assoc. cbn [app].
    split; [reflexivity|]. split; [cbn; lia|].
    unfold square_color in Ecol.
    split.
    + destruct colorMode; injection Ecol as <- <-; lia.
    + intros [|j] c Hj.
      * injection Hj as <-. split; [reflexivity|]. cbn [cmd_color].
        unfold square_color.
        destruct colorMode; injection Ecol as <- <-; [|reflexivity].
        replace (calls + 3 * 0) with calls by lia. reflexivity.
      * cbn in Hj. apply Hall in Hj as [Hv Hc]. split; [exact Hv|].
        rewrite Hc.
        apply (f_equal (fun k => fst (square_color Math_random colorMode k))).
        destruct colorMode; injection Ecol as <- <-; lia.
Qed.

(** X18: a frame issues 100 commands, each with 12 coordinates (the 6
    vertices [drawArrays] reads) and a colour of four components with
    alpha 1: white when [colorMode] is off; when it is on, the red, green
    and blue of the [i]-th square are the three draws of [Math.random]
    that follow the sampler's and those of the squares before it.  The
    colours cost 300 calls after those of the sampler, or none. *)
Theorem frame_commands_and_colours
    (Math_random : nat -> Qc) (Math_cos Math_sin : number -> number)
    (fuel : nat) (now clientWidth clientHeight : number)
    (s : state) (calls : nat)
    (drawn : list command) (s' : state) (calls' : nat) :
  drawScene Math_random Math_cos Math_sin fuel now clientWidth clientHeight
            s calls = Some (drawn, s', calls') ->
  exists spherePoints calls1,
    generatePointsInSphere Math_random fuel
      (Point (mouseX s) (mouseY s) (lit 0)) (newRadius s now)
      numberOfSquares calls = Some (spherePoints, calls1) /\
    calls' = calls1 + (if colorMode s then 300 else 0) /\
    length drawn = 100 /\
    forall i c, drawn !! i = Some c ->
      length (cmd_vertices c) = 12 /\
      cmd_color c
      = if colorMode s
        then [Fin (Math_random (calls1 + 3 * i));
              Fin (Math_random (calls1 + 3 * i + 1));
              Fin (Math_random (calls1 + 3 * i + 2)); lit 1]
        else [lit 1; lit 1; lit 1; lit 1].
Proof.
  intros H. unfold drawScene in H.
  destruct (generatePointsInSphere _ _ _ _ _ _) as [[pts calls1]|] eqn:Egen;
    [|discriminate].
  cbn [mbind option_bind] in H.
  destruct (squares_loop _ _ _ _ _ _ _ _ _ _ _ _) as [[[out sqs'] calls2]|]
    eqn:Eloop; [|discriminate].
  cbn [mbind option_bind] in H. injection H as <- <- <-.
  apply squares_loop_colors in Eloop as (new & -> & Hlen & -> & Hall).
  exists pts, calls1. split; [reflexivity|].
  split; [destruct (colorMode s); reflexivity|].
  split; [exact Hlen|]. cbn [app].
  intros i c Hi. apply Hall in Hi as [Hv Hc]. split; [exact Hv|].
  rewrite Hc. unfold square_color. destruct (colorMode s); reflexivity.
Qed.

Lemma frame_commands_and_colours_witness :
  exists drawn s' calls' c,
    drawScene draws_corner_then_centre cos_zero_angle sin_zero_angle 2
              (lit 1150) (lit 800) (lit 600)
              (dispatch (keydown "c") session_pressed) 200
    = Some (drawn, s', calls') /\
    calls' = 1097 /\ length drawn = 100 /\
    drawn !! 1 = Some c /\
    cmd_color c = [lit 0.95; lit 0.5; lit 0.5; lit 1] /\
    length (cmd_vertices c) = 12.
Proof.
  destruct (drawScene draws_corner_then_centre cos_zero_angle sin_zero_angle 2
              (lit 1150) (lit 800) (lit 600)
              (dispatch (keydown "c") session_pressed) 200)
    as [[[drawn s'] calls']|] eqn:E; [|vm_compute in E; discriminate E].
  destruct (frame_commands_and_colours _ _ _ _ _ _ _ _ _ _ _ _ E)
    as (pts & calls1 & Hgen & -> & Hlen & Hall).
  assert (Ecalls : calls1 = 797).
  { vm_compute in Hgen. injection Hgen as _ <-. reflexivity. }
  subst calls1.
  destruct (drawn !! 1) as [c|] eqn:Ec.
  2: { apply lookup_ge_None in Ec. lia. }
  exists drawn, s', 1097, c. split; [reflexivity|].
  split; [reflexivity|]. split; [exact Hlen|]. split; [exact Ec|].
  destruct (Hall 1 c Ec) as [Hv Hc]. split; [|exact Hv].
  rewrite Hc. vm_compute. closed_eq.
Defined.


(** X21: a frame changes nothing but the positions of the squares: the
    pointer, the colour mode and the three variables of the transition
    are as before, there are as many squares, and each keeps its
    rotation and its scales. *)
Theorem frame_changes_only_positions
    (Math_random : nat -> Qc) (Math_cos Math_sin : number -> number)
    (fuel : nat) (now clientWidth clientHeight : number)
    (s : state) (calls : nat)
    (drawn : list command) (s' : state) (calls' : nat) :
  drawScene Math_random Math_cos Math_sin fuel now clientWidth clientHeight
            s calls = Some (drawn, s', calls') ->
  mouseX s' = mouseX s /\ mouseY s' = mouseY s /\
  colorMode s' = colorMode s /\ radius s' = radius s /\
  wantedRadius s' = wantedRadius s /\ lerpStart s' = lerpStart s /\
  length (squaresData s') = length (squaresData s) /\
  forall i sq', squaresData s' !! i = Some sq' ->
    exists sq, squaresData s !! i = Some sq /\
      sq_rotationInRadians sq' = sq_rotationInRadians sq /\
      sq_scaleX sq' = sq_scaleX sq /\ sq_scaleY sq' = sq_scaleY sq.
Proof.
  intros H. unfold drawScene in H.
  destruct (generatePointsInSphere _ _ _ _ _ _) as [[pts calls1]|];
    [|discriminate].
  cbn [mbind option_bind] in H.
  destruct (squares_loop _ _ _ _ _ _ _ _ _ _ _ _) as [[[out sqs'] calls2]|]
    eqn:Eloop; [|discriminate].
  cbn [mbind option_bind] in H. injection H as <- <- <-.
  cbn [mouseX mouseY colorMode radius wantedRadius lerpStart squaresData].
  apply squares_loop_returns in Eloop as (new & _ & _ & Hsize & Hout & Hin).
  do 6 (split; [reflexivity|]). split; [exact Hsize|].
  intros i sq' Hi. destruct (decide (i < numberOfSquares)) as [Hlt|Hge].
  - destruct (Hin i) as (sq & p & color & Hsq & _ & _ & Hnew); [lia|lia|].
    rewrite Hi in Hnew. injection Hnew as ->. exists sq.
    split; [exact Hsq|]. repeat split.
  - rewrite Hout in Hi by lia. exists sq'. split; [exact Hi|]. repeat split.
Qed.

Lemma frame_changes_only_positions_witness :
  exists drawn s' calls',
    drawScene draws_centre cos_zero_angle sin_zero_angle 1
              (lit 1150) (lit 800) (lit 600) session_pressed 200
    = Some (drawn, s', calls') /\
    mouseX s' = lit 320 /\ radius s' = lit 50 /\
    length (squaresData s') = 100.
Proof.
  destruct (drawScene draws_centre cos_zero_angle sin_zero_angle 1
              (lit 1150) (lit 800) (lit 600) session_pressed 200)
    as [[[drawn s'] calls']|] eqn:E; [|vm_compute in E; discriminate E].
  exists drawn, s', calls'. split; [reflexivity|].
  destruct (frame_changes_only_positions _ _ _ _ _ _ _ _ _ _ _ _ E)
    as (Hx & _ & _ & Hr & _ & _ & Hlen & _).
  rewrite Hx, Hr, Hlen. split; [closed_eq|]. split; reflexivity.
Defined.
